(** * Library API (members, books, borrow/return): model and verification

    A shallow embedding of the [api] Django application:
    - [api/models.py]       the two tables and the SET_NULL foreign key,
    - [api/serializers.py]  the Book representation and the field validators,
    - [api/exceptions.py]   the error-flattening exception handler,
    - [api/renderers.py]    the response envelope,
    - [api/views.py]        login, the queryset filter, borrow and return_book,
    - [api/urls.py]         the router and the URLs of the extra actions.

    Tables are finite maps from primary keys to rows.  A view is a
    computation over the database that either returns a value or raises an
    exception; the exception handler turns exceptions into responses. *)

From Stdlib Require Import Ascii.
From stdpp Require Import gmap strings list fin_maps.

Local Open Scope string_scope.
Local Open Scope Z_scope.

(** ** Python values carried by response bodies *)

#[local] Set Warnings "-register-all".

Inductive value : Type :=
| VNone
| VBool (b : bool)
| VInt (n : Z)
| VStr (s : string)
| VList (l : list value)
| VDict (d : list (string * value)).

(** [request.data.get(key)] yields [None] when the key is absent (or JSON
    null).  [not x] holds for [None], for the integer [0] and for the empty
    string. *)
Definition truthy_int (x : option Z) : bool :=
  match x with
  | Some n => negb (n =? 0)
  | None => false
  end.

Definition truthy_str (x : option string) : bool :=
  match x with
  | Some s => negb (String.eqb s "")
  | None => false
  end.

(** ** api/models.py *)

Record Member : Type := {
  name : string;
  email : string;
  address : string;
  phone : string;
  join_date : string
}.

(** [status] is a CharField, [borrower] a nullable foreign key holding the
    member's primary key. *)
Record Book : Type := {
  title : string;
  author : string;
  published_year : Z;
  status : string;
  borrower : option Z
}.

(** The database: the two tables of models.py and the table of auth tokens
    (one token per user, keyed by the user's id). *)
Record DB : Type := {
  members : gmap Z Member;
  books : gmap Z Book;
  tokens : gmap Z string
}.

(** A Book built from the field defaults of the model:
    [status] defaults to 'available', [borrower] to NULL. *)
Definition Book_new (t a : string) (y : Z) : Book :=
  {| title := t; author := a; published_year := y;
     status := "available"; borrower := None |}.

Definition set_books (db : DB) (bs : gmap Z Book) : DB :=
  {| members := members db; books := bs; tokens := tokens db |}.

(** [book.save()] on a row with a primary key: UPDATE, or INSERT when the row
    is gone. *)
Definition Book_save (pk : Z) (b : Book) (db : DB) : DB :=
  set_books db (<[pk := b]> (books db)).

(** [on_delete=models.SET_NULL]: the borrower column of every book that
    references the deleted member is set to NULL; no other column changes. *)
Definition set_null (mid : Z) (b : Book) : Book :=
  if decide (borrower b = Some mid)
  then {| title := title b; author := author b;
          published_year := published_year b;
          status := status b; borrower := None |}
  else b.

Definition Member_delete (mid : Z) (db : DB) : DB :=
  {| members := delete mid (members db);
     books := set_null mid <$> books db;
     tokens := tokens db |}.

(** The invariant of the data model: borrowed iff there is a borrower. *)
Definition book_inv (b : Book) : Prop :=
  status b = "borrowed" ↔ borrower b ≠ None.

(** ** Exceptions and responses *)

(** An APIException carries its status code and its detail; [Http404] is
    Django's, raised by [get_object]. *)
Inductive exn : Type :=
| APIException (code : Z) (detail : value)
| Http404 (msg : string)
| OtherError (msg : string).

(** [ValidationError(detail)]: a detail that is neither a list nor a dict is
    wrapped in a one-element list; status code 400. *)
Definition ValidationError (detail : value) : exn :=
  APIException 400
    match detail with
    | VList _ | VDict _ => detail
    | _ => VList [detail]
    end.

Definition AuthenticationFailed (msg : string) : exn :=
  APIException 401 (VStr msg).

Definition NotAuthenticated : exn :=
  APIException 401 (VStr "Authentication credentials were not provided.").

Record Response : Type := {
  status_code : Z;
  status_text : string;
  data : value
}.

(** The reason phrases of the status codes this API produces
    (http.client.responses); unknown codes have the empty phrase. *)
Definition reason_phrase (code : Z) : string :=
  if code =? 200 then "OK"
  else if code =? 201 then "Created"
  else if code =? 204 then "No Content"
  else if code =? 400 then "Bad Request"
  else if code =? 401 then "Unauthorized"
  else if code =? 403 then "Forbidden"
  else if code =? 404 then "Not Found"
  else if code =? 405 then "Method Not Allowed"
  else if code =? 500 then "Internal Server Error"
  else "".

Definition mkResponse (d : value) (code : Z) : Response :=
  {| status_code := code; status_text := reason_phrase code; data := d |}.

(** The framework's default handler: [Http404] becomes a NotFound
    APIException (status 404, the exception's message as detail); a list or
    dict detail is the body, any other detail is put under the key
    'detail'; any other exception is not handled. *)
Definition exception_handler (exc : exn) : option Response :=
  match exc with
  | APIException code detail =>
      Some (mkResponse
              match detail with
              | VList _ | VDict _ => detail
              | _ => VDict [("detail", detail)]
              end code)
  | Http404 msg => Some (mkResponse (VDict [("detail", VStr msg)]) 404)
  | OtherError _ => None
  end.

(** ** api/serializers.py *)

(** [BookSerializer(book).data]: the listed fields, the borrower as a bare
    primary key or null. *)
Definition BookSerializer_data (pk : Z) (b : Book) : value :=
  VDict [("id", VInt pk);
         ("title", VStr (title b));
         ("author", VStr (author b));
         ("published_year", VInt (published_year b));
         ("status", VStr (status b));
         ("borrower", from_option VInt VNone (borrower b))].

Definition valid_statuses : list string := ["available"; "borrowed"].

(** Python's [', '.join(xs)]. *)
Fixpoint join (sep : string) (xs : list string) : string :=
  match xs with
  | [] => ""
  | [x] => x
  | x :: rest => x +:+ sep +:+ join sep rest
  end.

Definition validate_status (v : string) : exn + string :=
  if bool_decide (v ∈ valid_statuses) then inr v
  else inl (ValidationError
              (VStr ("Invalid status. Must be one of: "
                     +:+ join ", " valid_statuses))).

(** Querysets over the member table: [filter(email=v)],
    [exclude(id=i)] and [exists()]. *)
Definition filter_email (v : string) (qs : gmap Z Member) : gmap Z Member :=
  filter (λ r, email r.2 = v) qs.

Definition exclude_id (i : Z) (qs : gmap Z Member) : gmap Z Member :=
  filter (λ r, r.1 ≠ i) qs.

Definition qs_exists {A : Type} (qs : gmap Z A) : bool :=
  bool_decide (qs ≠ ∅).

(** [validate_email]: [inst] is [self.instance] (only its id is read),
    [None] for a create. *)
Definition validate_email (db : DB) (inst : option Z) (v : string)
  : exn + string :=
  match inst with
  | None =>
      if qs_exists (filter_email v (members db))
      then inl (ValidationError
                  (VStr "A member with this email already exists."))
      else inr v
  | Some i =>
      if qs_exists (exclude_id i (filter_email v (members db)))
      then inl (ValidationError
                  (VStr "A member with this email already exists."))
      else inr v
  end.

(** ** api/renderers.py *)

(** [str.replace('_', ' ')] and [str.upper()] on ASCII text (status texts
    are ASCII reason phrases). *)
Definition replace_char (a b c : Ascii.ascii) : Ascii.ascii :=
  if Ascii.eqb c a then b else c.

Definition is_lower (c : Ascii.ascii) : bool :=
  ((97 <=? Ascii.nat_of_ascii c) && (Ascii.nat_of_ascii c <=? 122))%nat.

Definition upper_char (c : Ascii.ascii) : Ascii.ascii :=
  if is_lower c then Ascii.ascii_of_nat (Ascii.nat_of_ascii c - 32) else c.

Fixpoint map_string (f : Ascii.ascii → Ascii.ascii) (s : string) : string :=
  match s with
  | EmptyString => EmptyString
  | String c r => String (f c) (map_string f r)
  end.

Definition replace (a b : Ascii.ascii) (s : string) : string :=
  map_string (replace_char a b) s.

Definition upper (s : string) : string := map_string upper_char s.

Record RendererContext : Type := {
  ctx_response : option Response
}.

Section Renderer.
(** [JSONRenderer.render], the serialisation of the base class. *)
Context {bytes : Type}.
Variable super_render : value → bytes.

Definition render (d : value) (renderer_context : option RendererContext)
  : bytes :=
  match renderer_context with
  | None => super_render d
  | Some ctx =>
      match ctx_response ctx with
      | None => super_render d
      | Some response =>
          let status_code := status_code response in
          let status_text := upper (replace "_"%char " "%char (status_text response)) in
          let response_payload :=
            VDict [("code", VInt status_code);
                   ("status", VStr status_text);
                   ("data", d)] in
          super_render response_payload
      end
  end.
End Renderer.

(** ** Views as computations over the database *)

Definition view (A : Type) : Type := DB → (exn + A) * DB.

Definition ret {A : Type} (a : A) : view A := λ db, (inr a, db).

Definition raise {A : Type} (e : exn) : view A := λ db, (inl e, db).

Definition bind {A B : Type} (m : view A) (k : A → view B) : view B :=
  λ db, match m db with
        | (inl e, db') => (inl e, db')
        | (inr a, db') => k a db'
        end.

Definition read {A : Type} (f : DB → A) : view A := λ db, (inr (f db), db).

Definition write (f : DB → DB) : view unit := λ db, (inr tt, f db).

Declare Scope view_scope.
Delimit Scope view_scope with view.
Notation "'let*' x ':=' m 'in' k" := (bind m (λ x, k))
  (at level 10, x pattern, m at level 100, k at level 200) : view_scope.
Local Open Scope view_scope.

(** The JSON body of a request, read through [request.data.get]: the keys
    the views look at, typed as the request schemas declare them. *)
Record Body : Type := {
  member_id : option Z;
  username : option string;
  password : option string
}.

(** [user] is the principal the authentication layer attached to the
    request, [None] for an anonymous request. *)
Record Request : Type := {
  user : option Z;
  query_params : gmap string string;
  request_data : Body
}.

Section Api.
(** Python's [str()] of a value that is not a string (the [repr] of a
    list, of a dict, of a number). *)
Variable repr : value → string.

Definition py_str (v : value) : string :=
  match v with
  | VStr s => s
  | _ => repr v
  end.

(** *** api/exceptions.py *)

Definition is_generic (field : string) : bool :=
  bool_decide (field = "non_field_errors") || bool_decide (field = "detail").

(** The inner loop [for message in messages]. *)
Definition append_messages (field : string) (error_messages : list string)
    (messages : list value) : list string :=
  fold_left
    (λ acc message,
       if is_generic field
       then (acc ++ [py_str message])%list
       else (acc ++ [field +:+ ": " +:+ py_str message])%list)
    messages error_messages.

(** The body of the outer loop [for field, messages in data.items()]. *)
Definition append_field (error_messages : list string)
    (item : string * value) : list string :=
  match item.2 with
  | VList messages => append_messages item.1 error_messages messages
  | messages =>
      if is_generic item.1
      then (error_messages ++ [py_str messages])%list
      else (error_messages ++ [item.1 +:+ ": " +:+ py_str messages])%list
  end.

Definition flatten_errors (d : value) : list string :=
  match d with
  | VDict items => fold_left append_field items []
  | VList msgs => py_str <$> msgs
  | _ => ([] ++ [py_str d])%list
  end.

Definition error_body (error_messages : list string) : value :=
  VDict [("error", VList (VStr <$> error_messages))].

Definition custom_exception_handler (exc : exn) : option Response :=
  match exception_handler exc with
  | Some response =>
      Some {| status_code := status_code response;
              status_text := status_text response;
              data := error_body (flatten_errors (data response)) |}
  | None => None
  end.

(** Running a view behind the exception handler; [None] when the
    exception is not handled (a server error outside the API's format). *)
Definition api (v : view Response) (db : DB) : option Response * DB :=
  match v db with
  | (inr response, db') => (Some response, db')
  | (inl exc, db') => (custom_exception_handler exc, db')
  end.

(** [permission_classes = [IsAuthenticated]], checked before the handler
    runs. *)
Definition check_permissions (request : Request) : view unit :=
  match user request with
  | Some _ => ret tt
  | None => raise NotAuthenticated
  end.

(** *** api/views.py: login *)

(** [django.contrib.auth.authenticate]: the id of the user the
    credentials belong to, if any. *)
Variable authenticate : option string → option string → option Z.

(** [Token.objects.get_or_create(user=user)]; [fresh_key] is the random
    key a new token would get. *)
Definition Token_get_or_create (uid : Z) (fresh_key : string)
  : view (string * bool) :=
  λ db, match tokens db !! uid with
        | Some key => (inr (key, false), db)
        | None =>
            (inr (fresh_key, true),
             {| members := members db; books := books db;
                tokens := <[uid := fresh_key]> (tokens db) |})
        end.

Definition login (fresh_key : string) (request : Request) : view Response :=
  let username := username (request_data request) in
  let password := password (request_data request) in
  if negb (truthy_str username)
  then raise (ValidationError
                (VDict [("username", VList [VStr "This field is required."])]))
  else if negb (truthy_str password)
  then raise (ValidationError
                (VDict [("password", VList [VStr "This field is required."])]))
  else
    match authenticate username password with
    | None => raise (AuthenticationFailed "Invalid credentials.")
    | Some uid =>
        let* tc := Token_get_or_create uid fresh_key in
        ret (mkResponse (VDict [("token", VStr tc.1)]) 200)
    end.

(** [@permission_classes([AllowAny])]: no permission check. *)
Definition login_view (fresh_key : string) (request : Request) (db : DB)
  : option Response * DB :=
  api (login fresh_key request) db.

(** *** api/views.py: BookViewSet *)

Definition get_queryset (request : Request) : view (gmap Z Book) :=
  let status_filter := query_params request !! "status" in
  if truthy_str status_filter
  then read (λ db, filter (λ r, Some (status r.2) = status_filter) (books db))
  else read books.

(** [self.get_object()]: the row with this primary key in the queryset of
    [get_queryset], or 404. *)
Definition get_object (request : Request) (pk : Z) : view Book :=
  let* queryset := get_queryset request in
  match queryset !! pk with
  | Some obj => ret obj
  | None => raise (Http404 "No Book matches the given query.")
  end.

(** [Member.objects.get(id=member_id)]; [None] stands for
    [Member.DoesNotExist]. *)
Definition Member_get (id : option Z) : view (option (Z * Member)) :=
  read (λ db, n ← id; m ← members db !! n; Some (n, m)).

Definition borrow (request : Request) (pk : Z) : view Response :=
  let* book := get_object request pk in
  let member_id := member_id (request_data request) in
  if negb (truthy_int member_id)
  then raise (ValidationError
                (VDict [("member_id", VList [VStr "This field is required."])]))
  else
    let* found := Member_get member_id in
    match found with
    | None =>
        raise (ValidationError
                 (VDict [("member_id", VList [VStr "Member does not exist."])]))
    | Some member =>
        if negb (String.eqb (status book) "available")
        then raise (ValidationError (VStr "This book is already borrowed."))
        else
          let book := {| title := title book; author := author book;
                         published_year := published_year book;
                         status := "borrowed";
                         borrower := Some member.1 |} in
          let* _ := write (Book_save pk book) in
          ret (mkResponse (BookSerializer_data pk book) 200)
    end.

Definition return_book (request : Request) (pk : Z) : view Response :=
  let* book := get_object request pk in
  if negb (String.eqb (status book) "borrowed")
  then raise (ValidationError (VStr "This book is not currently borrowed."))
  else
    let book := {| title := title book; author := author book;
                   published_year := published_year book;
                   status := "available";
                   borrower := None |} in
    let* _ := write (Book_save pk book) in
    ret (mkResponse (BookSerializer_data pk book) 200).

(** The two actions as the viewset serves them. *)
Definition borrow_view (request : Request) (pk : Z) (db : DB)
  : option Response * DB :=
  api (let* _ := check_permissions request in borrow request pk) db.

Definition return_book_view (request : Request) (pk : Z) (db : DB)
  : option Response * DB :=
  api (let* _ := check_permissions request in return_book request pk) db.

(** *** Concurrent borrow requests

    The handler opens no transaction and takes no lock: its three
    accesses to the database ([get_object], [Member.objects.get],
    [book.save]) are separate statements, and statements of other requests
    may run between them.  [borrow_pc] is the point a request has reached,
    with the local variables it holds there. *)
Inductive borrow_pc : Type :=
| AtStart
| HasBook (book : Book)
| HasMember (book : Book) (member : Z * Member)
| Finished (response : option Response).

Definition borrow_step (request : Request) (pk : Z) (pc : borrow_pc)
    (db : DB) : borrow_pc * DB :=
  match pc with
  | AtStart =>
      match (let* _ := check_permissions request in
             get_object request pk) db with
      | (inr book, db') => (HasBook book, db')
      | (inl exc, db') => (Finished (custom_exception_handler exc), db')
      end
  | HasBook book =>
      let member_id := member_id (request_data request) in
      if negb (truthy_int member_id)
      then (Finished
              (custom_exception_handler
                 (ValidationError
                    (VDict [("member_id",
                             VList [VStr "This field is required."])]))),
            db)
      else
        match Member_get member_id db with
        | (inr (Some member), db') => (HasMember book member, db')
        | (inr None, db') =>
            (Finished
               (custom_exception_handler
                  (ValidationError
                     (VDict [("member_id",
                              VList [VStr "Member does not exist."])]))),
             db')
        | (inl exc, db') => (Finished (custom_exception_handler exc), db')
        end
  | HasMember book member =>
      if negb (String.eqb (status book) "available")
      then (Finished
              (custom_exception_handler
                 (ValidationError (VStr "This book is already borrowed."))),
            db)
      else
        let book := {| title := title book; author := author book;
                       published_year := published_year book;
                       status := "borrowed";
                       borrower := Some member.1 |} in
        (Finished (Some (mkResponse (BookSerializer_data pk book) 200)),
         Book_save pk book db)
  | Finished response => (Finished response, db)
  end.

(** Two requests on one database; the schedule says which of them runs
    its next statement ([true]: the first). *)
Record system : Type := {
  shared : DB;
  first : borrow_pc;
  second : borrow_pc
}.

Definition system_step (r1 r2 : Request) (pk1 pk2 : Z) (s : system)
    (turn : bool) : system :=
  if turn
  then let '(pc, db) := borrow_step r1 pk1 (first s) (shared s) in
       {| shared := db; first := pc; second := second s |}
  else let '(pc, db) := borrow_step r2 pk2 (second s) (shared s) in
       {| shared := db; first := first s; second := pc |}.

Definition run_schedule (r1 r2 : Request) (pk1 pk2 : Z)
    (schedule : list bool) (db : DB) : system :=
  fold_left (system_step r1 r2 pk1 pk2) schedule
    {| shared := db; first := AtStart; second := AtStart |}.

Definition succeeded (pc : borrow_pc) : bool :=
  match pc with
  | Finished (Some response) => status_code response =? 200
  | _ => false
  end.

End Api.

(** ** api/urls.py *)

Inductive http_method : Type := GET | POST | PUT | PATCH | DELETE.

Global Instance http_method_eq_dec : EqDecision http_method.
Proof. solve_decision. Defined.

(** An extra action of a viewset, as the [@action] decorator records it. *)
Record Action : Type := {
  func_name : string;
  detail : bool;
  methods : list http_method;
  url_path : string
}.

(** [@action(detail=..., methods=[...])] on the function [func]: without a
    [url_path] argument the URL segment is the function's name. *)
Definition action (detail : bool) (methods : list http_method)
    (url_path : option string) (func : string) : Action :=
  {| func_name := func; detail := detail; methods := methods;
     url_path := default func url_path |}.

Definition BookViewSet_actions : list Action :=
  [action true [POST] None "borrow"; action true [POST] None "return_book"].

Definition MemberViewSet_actions : list Action := [].

Record Registration : Type := {
  prefix : string;
  basename : string;
  extra_actions : list Action
}.

(** [router.register(r'books', ...)] and [router.register(r'members', ...)]. *)
Definition router : list Registration :=
  [ {| prefix := "books"; basename := "book";
       extra_actions := BookViewSet_actions |};
    {| prefix := "members"; basename := "member";
       extra_actions := MemberViewSet_actions |} ].

(** What a URL resolves to.  A path is the list of its segments:
    [books/7/borrow/] is ["books"; "7"; "borrow"]. *)
Inductive target : Type :=
| LoginView
| ApiRoot
| ListRoute (prefix : string)
| DetailRoute (prefix : string) (pk : string)
| ActionRoute (prefix : string) (a : Action) (pk : string).

(** The lookup segment matches [[^/.]+]. *)
Fixpoint has_dot (s : string) : bool :=
  match s with
  | EmptyString => false
  | String c r => Ascii.eqb c "."%char || has_dot r
  end.

Definition lookup_segment (s : string) : bool :=
  negb (String.eqb s "") && negb (has_dot s).

Definition find_registration (p : string) : option Registration :=
  find (λ r, bool_decide (prefix r = p)) router.

(** The URLs the router generates for the registered viewsets: the list
    route, the detail route and one route per extra action (only detail
    actions occur in this application; format suffixes are left out). *)
Definition router_urls (path : list string) : option target :=
  match path with
  | [] => Some ApiRoot
  | [p] => _ ← find_registration p; Some (ListRoute p)
  | [p; pk] =>
      _ ← find_registration p;
      if lookup_segment pk then Some (DetailRoute p pk) else None
  | [p; pk; seg] =>
      r ← find_registration p;
      a ← find (λ a, detail a && bool_decide (url_path a = seg))
             (extra_actions r);
      if lookup_segment pk then Some (ActionRoute p a pk) else None
  | _ => None
  end.

(** [urlpatterns]: the login path first, then the router's URLs. *)
Definition urlpatterns (path : list string) : option target :=
  match path with
  | ["auth"; "login"] => Some LoginView
  | _ => router_urls path
  end.

(** The outcome of a request: a response of one of the views above, no
    matching URL, a method the URL does not accept, or one of the generic
    operations the viewsets inherit from the framework. *)
Inductive outcome : Type :=
| Served (response : option Response) (db : DB)
| NoRoute
| MethodNotAllowed
| Inherited (t : target).

Section Dispatch.
Variable repr : value → string.
Variable authenticate : option string → option string → option Z.

(** The conversion of the URL's lookup segment to a primary key; when it
    fails [get_object] answers 404. *)
Variable to_pk : string → option Z.

Definition detail_view (handler : Request → Z → view Response)
    (request : Request) (pk : string) (db : DB) : option Response * DB :=
  api repr
    (let* _ := check_permissions request in
     match to_pk pk with
     | Some n => handler request n
     | None => raise (Http404 "No Book matches the given query.")
     end) db.

Definition dispatch (fresh_key : string) (m : http_method)
    (path : list string) (request : Request) (db : DB) : outcome :=
  match urlpatterns path with
  | None => NoRoute
  | Some LoginView =>
      if decide (m = POST)
      then let '(r, db') := login_view repr authenticate fresh_key request db in
           Served r db'
      else MethodNotAllowed
  | Some (ActionRoute p a pk) =>
      if bool_decide (m ∈ methods a)
      then
        if bool_decide (p = "books") && bool_decide (func_name a = "borrow")
        then let '(r, db') := detail_view borrow request pk db in
             Served r db'
        else if bool_decide (p = "books")
                && bool_decide (func_name a = "return_book")
        then let '(r, db') := detail_view return_book request pk db in
             Served r db'
        else Inherited (ActionRoute p a pk)
      else MethodNotAllowed
  | Some t => Inherited t
  end.
End Dispatch.

(** * Specification vocabulary *)

(** The body of an error response and what it means for the outcome of a
    view to be an error with a given status code and message list. *)
Definition is_status (r : option Response) (code : Z) : Prop :=
  ∃ resp, r = Some resp ∧ status_code resp = code.

Definition is_error (r : option Response) (code : Z) (msgs : list string)
  : Prop :=
  ∃ resp, r = Some resp ∧ status_code resp = code
          ∧ data resp = VDict [("error", VList (VStr <$> msgs))].

Definition error_response (code : Z) (msgs : list string) : Response :=
  {| status_code := code; status_text := reason_phrase code;
     data := VDict [("error", VList (VStr <$> msgs))] |}.

(** The books a request can address: all of them, or, when the request
    carries a non-empty [status] query parameter, those with that status. *)
Definition status_filter_admits (request : Request) (b : Book) : bool :=
  match query_params request !! "status" with
  | Some s => String.eqb s "" || String.eqb (status b) s
  | None => true
  end.

Definition visible_book (db : DB) (request : Request) (pk : Z) : option Book :=
  b ← books db !! pk; if status_filter_admits request b then Some b else None.

Definition borrowed_by (mid : Z) (b : Book) : Book :=
  {| title := title b; author := author b;
     published_year := published_year b;
     status := "borrowed"; borrower := Some mid |}.

Definition returned (b : Book) : Book :=
  {| title := title b; author := author b;
     published_year := published_year b;
     status := "available"; borrower := None |}.




Definition return_outcome (found : option Book) (db : DB) (pk : Z)
    (out : option Response * DB) : Prop :=
  match found with
  | None => is_status out.1 404
  | Some book =>
      if negb (String.eqb (status book) "borrowed")
      then is_error out.1 400 ["This book is not currently borrowed."]
      else out.1 = Some (mkResponse (BookSerializer_data pk (returned book)) 200)
           ∧ out.2 = Book_save pk (returned book) db
  end.

Definition return_as_claimed (db : DB) (request : Request) (pk : Z)
    (out : option Response * DB) : Prop :=
  return_outcome (books db !! pk) db pk out.

Definition return_as_amended (db : DB) (request : Request) (pk : Z)
    (out : option Response * DB) : Prop :=
  return_outcome (visible_book db request pk) db pk out.




(** The error structures the flattening rule is stated for: a mapping from
    fields to one message or a list of messages, a list of messages, or a
    single message. *)
Inductive field_messages : Type :=
| OneMessage (m : string)
| ManyMessages (ms : list string).

Inductive error_structure : Type :=
| ErrMapping (fields : list (string * field_messages))
| ErrList (ms : list string)
| ErrScalar (m : string).

Definition field_value (fm : field_messages) : value :=
  match fm with
  | OneMessage m => VStr m
  | ManyMessages ms => VList (VStr <$> ms)
  end.

Definition to_value (e : error_structure) : value :=
  match e with
  | ErrMapping fields => VDict (prod_map id field_value <$> fields)
  | ErrList ms => VList (VStr <$> ms)
  | ErrScalar m => VStr m
  end.

Definition messages_of (fm : field_messages) : list string :=
  match fm with
  | OneMessage m => [m]
  | ManyMessages ms => ms
  end.

(** The flattening rule in the specification's words: every message of
    every field gives one string, qualified by the field's name unless the
    field is one of the two generic buckets. *)
Definition qualified (field msg : string) : string :=
  if bool_decide (field ∈ ["non_field_errors"; "detail"])
  then msg
  else field +:+ ": " +:+ msg.

Definition spec_flatten (e : error_structure) : list string :=
  match e with
  | ErrMapping fields =>
      item ← fields; qualified item.1 <$> messages_of item.2
  | ErrList ms => ms
  | ErrScalar m => [m]
  end.

Definition message_count (e : error_structure) : nat :=
  match e with
  | ErrMapping fields => sum_list (length ∘ messages_of ∘ snd <$> fields)
  | ErrList ms => length ms
  | ErrScalar _ => 1%nat
  end.

(** For an arbitrarily nested body: the number of entries at the level the
    handler iterates over. *)
Definition top_level_count (d : value) : nat :=
  match d with
  | VDict items =>
      sum_list ((λ item, match item.2 with
                         | VList ms => length ms
                         | _ => 1%nat
                         end) <$> items)
  | VList ms => length ms
  | _ => 1%nat
  end.


(** The envelope in the specification's words. *)
Definition envelope (code : Z) (status_text : string) (payload : value)
  : value :=
  VDict [("code", VInt code); ("status", VStr status_text); ("data", payload)].

(** The database states the modelled operations produce from the empty
    database: rows created with fresh keys (books with the model's
    defaults), the two actions, and, when [deletion] is set, the deletion
    of members. *)
Inductive reachable (repr : value → string) (deletion : bool) : DB → Prop :=
| reach_empty :
    reachable repr deletion {| members := ∅; books := ∅; tokens := ∅ |}
| reach_member_create db i m :
    reachable repr deletion db → members db !! i = None →
    reachable repr deletion
      {| members := <[i := m]> (members db); books := books db;
         tokens := tokens db |}
| reach_book_create db i t a y :
    reachable repr deletion db → books db !! i = None →
    reachable repr deletion (Book_save i (Book_new t a y) db)
| reach_borrow db request pk :
    reachable repr deletion db →
    reachable repr deletion (borrow_view repr request pk db).2
| reach_return db request pk :
    reachable repr deletion db →
    reachable repr deletion (return_book_view repr request pk db).2
| reach_member_delete db mid :
    deletion = true → reachable repr deletion db →
    reachable repr deletion (Member_delete mid db).

Definition all_books_inv (db : DB) : Prop :=
  ∀ i b, books db !! i = Some b → book_inv b.

(** The UNIQUE constraint on [Member.email]. *)
Definition emails_unique (db : DB) : Prop :=
  ∀ i j m m', members db !! i = Some m → members db !! j = Some m' →
              email m = email m' → i = j.

Definition rejected (r : exn + string) : Prop := ∃ e, r = inl e.

(** ** Concrete data for the examples *)

Definition repr0 (v : value) : string := "<repr>".

Definition john : Member :=
  {| name := "John Doe"; email := "john@example.com";
     address := "123 Main St"; phone := "555-1234";
     join_date := "2024-01-01" |}.

Definition jane : Member :=
  {| name := "Jane Roe"; email := "jane@example.com";
     address := "9 Side St"; phone := "555-9876";
     join_date := "2024-02-01" |}.

Definition available_book : Book := Book_new "Available Book" "Test Author" 2023.

Definition borrowed_book : Book :=
  {| title := "Borrowed Book"; author := "Test Author";
     published_year := 2022; status := "borrowed"; borrower := Some 1 |}.

(** The fixture of the borrow tests: one member, an available book (1) and
    a borrowed book (2); a second member for the concurrent scenario. *)
Definition db0 : DB :=
  {| members := {[ 1 := john; 2 := jane ]};
     books := {[ 1 := available_book; 2 := borrowed_book ]};
     tokens := {[ 7 := "abc123" ]} |}.

Definition mk_request (u : option Z) (q : gmap string string)
    (m : option Z) : Request :=
  {| user := u; query_params := q;
     request_data := {| member_id := m; username := None;
                        password := None |} |}.

Definition login_request (u p : option string) : Request :=
  {| user := None; query_params := ∅;
     request_data := {| member_id := None; username := u; password := p |} |}.

Definition authenticate0 (u p : option string) : option Z :=
  if bool_decide (u = Some "testadmin" ∧ p = Some "testpass123")
  then Some 7
  else if bool_decide (u = Some "second" ∧ p = Some "pw") then Some 8
  else None.

(** Primary keys written in decimal. *)
Definition digit (c : Ascii.ascii) : option Z :=
  let n := Ascii.nat_of_ascii c in
  if ((48 <=? n) && (n <=? 57))%nat then Some (Z.of_nat (n - 48)) else None.

Fixpoint decimal_acc (acc : Z) (s : string) : option Z :=
  match s with
  | EmptyString => Some acc
  | String c r => d ← digit c; decimal_acc (10 * acc + d) r
  end.

Definition decimal_pk (s : string) : option Z :=
  if String.eqb s "" then None else decimal_acc 0 s.

(** ** Vocabulary for the further properties *)

(** A response with status 200. *)
Definition ok_response (r : option Response) : bool :=
  match r with
  | Some resp => status_code resp =? 200
  | None => false
  end.

(** Referential integrity of the foreign key: every borrower is a row of
    the member table. *)
Definition refs_ok (db : DB) : Prop :=
  ∀ pk b mid, books db !! pk = Some b → borrower b = Some mid →
              is_Some (members db !! mid).

(** The same request without its query string. *)
Definition without_query (request : Request) : Request :=
  {| user := user request; query_params := ∅;
     request_data := request_data request |}.

(** [member.save()] on a row with a primary key. *)
Definition Member_save (pk : Z) (m : Member) (db : DB) : DB :=
  {| members := <[pk := m]> (members db); books := books db;
     tokens := tokens db |}.

(** The statements a borrow request still has to run. *)
Definition steps_left (pc : borrow_pc) : nat :=
  match pc with
  | AtStart => 3
  | HasBook _ => 2
  | HasMember _ _ => 1
  | Finished _ => 0
  end%nat.



(** How many turns a schedule gives to one of the two requests. *)
Definition turns (who : bool) (schedule : list bool) : nat :=
  length (filter (λ t, t = who) schedule).

(** The properties of the shared database that every step keeps. *)
Definition step_invariant (pk1 pk2 : Z) (db db' : DB) : Prop :=
  members db' = members db ∧ tokens db' = tokens db
  ∧ (∀ i, i ≠ pk1 → i ≠ pk2 → books db' !! i = books db !! i)
  ∧ (all_books_inv db → all_books_inv db').

(** * Verification *)

Section Handlers.
Variable repr : value → string.

(** ** The object lookup of the viewset *)

Lemma get_object_eq request pk db :
  get_object request pk db =
    (match visible_book db request pk with
     | Some b => inr b
     | None => inl (Http404 "No Book matches the given query.")
     end, db).
Proof.
  unfold get_object, bind, get_queryset, visible_book, status_filter_admits.
  destruct (query_params request !! "status") as [s|] eqn:Hq; simpl.
  - destruct (String.eqb s "") eqn:Hs; simpl; unfold read.
    + by destruct (books db !! pk).
    + rewrite map_lookup_filter.
      destruct (books db !! pk) as [b|]; simpl; [|done].
      case_guard as Hg; simpl.
      * injection Hg as ->. by rewrite String.eqb_refl.
      * destruct (String.eqb (status b) s) eqn:Hb; [|done].
        apply String.eqb_eq in Hb. by subst.
  - unfold read. by destruct (books db !! pk).
Qed.

(** ** borrow and return_book as functions of the request and the
    database *)

Lemma borrow_view_eq request pk db :
  borrow_view repr request pk db =
    match user request with
    | None =>
        (Some (error_response 401
                 ["Authentication credentials were not provided."]), db)
    | Some _ =>
        match visible_book db request pk with
        | None =>
            (Some (error_response 404 ["No Book matches the given query."]),
             db)
        | Some book =>
            if negb (truthy_int (member_id (request_data request)))
            then (Some (error_response 400
                          ["member_id: This field is required."]), db)
            else
              match member_id (request_data request) ≫= (members db !!.),
                    member_id (request_data request) with
              | Some _, Some mid =>
                  if negb (String.eqb (status book) "available")
                  then (Some (error_response 400
                                ["This book is already borrowed."]), db)
                  else (Some (mkResponse
                                (BookSerializer_data pk (borrowed_by mid book))
                                200),
                        Book_save pk (borrowed_by mid book) db)
              | _, _ =>
                  (Some (error_response 400
                           ["member_id: Member does not exist."]), db)
              end
        end
    end.
Proof.
  unfold borrow_view, api, bind, check_permissions, borrow, bind.
  destruct (user request); simpl; [|done].
  rewrite get_object_eq.
  destruct (visible_book db request pk) as [book|]; simpl; [|done].
  destruct (truthy_int (member_id (request_data request))); simpl; [|done].
  unfold Member_get, read.
  destruct (member_id (request_data request)) as [mid|]; simpl; [|done].
  destruct (members db !! mid); simpl; [|done].
  by destruct (String.eqb (status book) "available").
Qed.

Lemma return_book_view_eq request pk db :
  return_book_view repr request pk db =
    match user request with
    | None =>
        (Some (error_response 401
                 ["Authentication credentials were not provided."]), db)
    | Some _ =>
        match visible_book db request pk with
        | None =>
            (Some (error_response 404 ["No Book matches the given query."]),
             db)
        | Some book =>
            if negb (String.eqb (status book) "borrowed")
            then (Some (error_response 400
                          ["This book is not currently borrowed."]), db)
            else (Some (mkResponse (BookSerializer_data pk (returned book))
                          200),
                  Book_save pk (returned book) db)
        end
    end.
Proof.
  unfold return_book_view, api, bind, check_permissions, return_book, bind.
  destruct (user request); simpl; [|done].
  rewrite get_object_eq.
  destruct (visible_book db request pk) as [book|]; simpl; [|done].
  by destruct (String.eqb (status book) "borrowed").
Qed.

Lemma is_error_response code msgs :
  is_error (Some (error_response code msgs)) code msgs.
Proof. by eexists. Qed.

Lemma is_status_response code msgs :
  is_status (Some (error_response code msgs)) code.
Proof. by eexists. Qed.


(** C3, amended: for every return request by an authenticated principal:
    no book with that id among the books the request's status filter
    admits gives 404; a status other than 'borrowed' gives 400 with
    'This book is not currently borrowed.'; otherwise the book is saved
    with status 'available' and no borrower, and the response is 200 with
    the updated book. *)
Theorem return_checks_in_order request pk db :
  user request ≠ None →
  return_as_amended db request pk (return_book_view repr request pk db).
Proof.
  intros Hu. rewrite return_book_view_eq.
  unfold return_as_amended, return_outcome.
  destruct (user request); [clear Hu|done].
  destruct (visible_book db request pk) as [book|]; simpl;
    [|apply is_status_response].
  destruct (String.eqb (status book) "borrowed"); simpl;
    [done|apply is_error_response].
Qed.

(** ** The invariant of the data model *)

Lemma book_inv_borrowed_by mid b : book_inv (borrowed_by mid b).
Proof. by split. Qed.

Lemma book_inv_returned b : book_inv (returned b).
Proof. split; [discriminate|by intros []]. Qed.

Lemma book_inv_new t a y : book_inv (Book_new t a y).
Proof. split; [discriminate|by intros []]. Qed.

(** Either action leaves the book table alone or saves one row that
    satisfies the invariant. *)
Lemma borrow_view_books request pk db :
  (borrow_view repr request pk db).2 = db
  ∨ ∃ b, book_inv b ∧ (borrow_view repr request pk db).2 = Book_save pk b db.
Proof.
  rewrite borrow_view_eq.
  destruct (user request); [|by left].
  destruct (visible_book db request pk) as [book|]; [|by left].
  destruct (negb (truthy_int (member_id (request_data request))));
    [by left|].
  destruct (member_id (request_data request)) as [mid|]; simpl; [|by left].
  destruct (members db !! mid); simpl; [|by left].
  destruct (negb (String.eqb (status book) "available")); [by left|].
  right. eexists. split; [apply (book_inv_borrowed_by mid book)|done].
Qed.

Lemma return_book_view_books request pk db :
  (return_book_view repr request pk db).2 = db
  ∨ ∃ b, book_inv b
         ∧ (return_book_view repr request pk db).2 = Book_save pk b db.
Proof.
  rewrite return_book_view_eq.
  destruct (user request); [|by left].
  destruct (visible_book db request pk) as [book|]; [|by left].
  destruct (negb (String.eqb (status book) "borrowed")); [by left|].
  right. eexists. split; [apply (book_inv_returned book)|done].
Qed.

Lemma save_keeps_inv pk b db i b0 :
  book_inv b → books db !! i = Some b0 → book_inv b0 →
  ∃ b', books (Book_save pk b db) !! i = Some b' ∧ book_inv b'.
Proof.
  intros Hb Hi Hb0. unfold Book_save. simpl.
  destruct (decide (pk = i)) as [->|Hne].
  - exists b. by rewrite lookup_insert_eq.
  - exists b0. by rewrite lookup_insert_ne.
Qed.

Lemma save_all_inv pk b db :
  book_inv b → all_books_inv db → all_books_inv (Book_save pk b db).
Proof.
  intros Hb Hdb i b'. unfold Book_save. simpl.
  destruct (decide (pk = i)) as [->|Hne].
  - rewrite lookup_insert_eq. by intros [= <-].
  - rewrite lookup_insert_ne by done. apply Hdb.
Qed.

Lemma reachable_inv db : reachable repr false db → all_books_inv db.
Proof.
  induction 1 as [|db i m _ IH _|db i t a y _ IH _|db request pk _ IH
                 |db request pk _ IH|db mid Hdel _ _].
  - intros i b. simpl. by rewrite lookup_empty.
  - exact IH.
  - apply save_all_inv; [apply book_inv_new|done].
  - destruct (borrow_view_books request pk db) as [->|(b & Hb & ->)];
      [done|by apply save_all_inv].
  - destruct (return_book_view_books request pk db) as [->|(b & Hb & ->)];
      [done|by apply save_all_inv].
  - discriminate.
Qed.

(** C2, amended: a book built from the model's defaults satisfies
    status == 'borrowed' iff borrower is not null; the borrow action and
    the return action either leave the database as it is or save one row
    that satisfies the invariant, so they preserve the invariant on every
    book that satisfies it beforehand; hence every book of a database
    produced by creations with the defaults, borrows and returns satisfies
    it. *)
Theorem actions_preserve_book_inv request pk db i b :
  books db !! i = Some b → book_inv b →
  (∃ b', books (borrow_view repr request pk db).2 !! i = Some b'
         ∧ book_inv b')
  ∧ (∃ b', books (return_book_view repr request pk db).2 !! i = Some b'
           ∧ book_inv b')
  ∧ ((borrow_view repr request pk db).2 = db
     ∨ ∃ b', book_inv b'
             ∧ (borrow_view repr request pk db).2 = Book_save pk b' db)
  ∧ ((return_book_view repr request pk db).2 = db
     ∨ ∃ b', book_inv b'
             ∧ (return_book_view repr request pk db).2 = Book_save pk b' db)
  ∧ (∀ t a y, book_inv (Book_new t a y))
  ∧ (∀ db', reachable repr false db' → all_books_inv db').
Proof.
  intros Hi Hb. split; [|split; [|split; [|split; [|split]]]].
  - destruct (borrow_view_books request pk db) as [->|(b1 & Hb1 & ->)];
      [by exists b|by apply save_keeps_inv with b].
  - destruct (return_book_view_books request pk db) as [->|(b1 & Hb1 & ->)];
      [by exists b|by apply save_keeps_inv with b].
  - apply borrow_view_books.
  - apply return_book_view_books.
  - apply book_inv_new.
  - apply reachable_inv.
Qed.

(** C10: deleting the member who is the borrower of a borrowed book
    removes the member, sets the book's borrower to null and leaves its
    other columns, the status among them, as they were: the book ends
    with status 'borrowed' and no borrower. *)
Theorem delete_borrower_keeps_status db mid pk b :
  books db !! pk = Some b → status b = "borrowed" → borrower b = Some mid →
  members (Member_delete mid db) !! mid = None
  ∧ ∃ b', books (Member_delete mid db) !! pk = Some b'
          ∧ status b' = "borrowed" ∧ borrower b' = None
          ∧ title b' = title b ∧ author b' = author b
          ∧ published_year b' = published_year b
          ∧ ¬ book_inv b'.
Proof.
  intros Hpk Hst Hbo. unfold Member_delete. simpl. split.
  - apply lookup_delete_eq.
  - rewrite lookup_fmap, Hpk. simpl. eexists. split; [done|].
    unfold set_null. rewrite decide_True by done. simpl.
    repeat split; try done.
    intros [Hinv _]. by apply Hinv.
Qed.

(** ** Concurrent borrows *)

Lemma visible_book_unfiltered db request pk :
  query_params request !! "status" = None →
  visible_book db request pk = books db !! pk.
Proof.
  intros Hq. unfold visible_book, status_filter_admits. rewrite Hq.
  by destruct (books db !! pk).
Qed.

Lemma step_start request pk db b :
  user request ≠ None → visible_book db request pk = Some b →
  borrow_step repr request pk AtStart db = (HasBook b, db).
Proof.
  intros Hu Hv. unfold borrow_step, bind, check_permissions.
  destruct (user request); [|done]. simpl.
  by rewrite get_object_eq, Hv.
Qed.

Lemma step_member request pk db b mid row :
  member_id (request_data request) = Some mid → mid ≠ 0 →
  members db !! mid = Some row →
  borrow_step repr request pk (HasBook b) db = (HasMember b (mid, row), db).
Proof.
  intros Hm Hz Hrow. unfold borrow_step, Member_get, read.
  rewrite Hm. simpl.
  destruct (Z.eqb_spec mid 0); [done|]. simpl. by rewrite Hrow.
Qed.

Lemma step_save request pk db b member :
  status b = "available" →
  borrow_step repr request pk (HasMember b member) db =
    (Finished (Some (mkResponse
                       (BookSerializer_data pk (borrowed_by member.1 b)) 200)),
     Book_save pk (borrowed_by member.1 b) db).
Proof. intros Hs. unfold borrow_step. by rewrite Hs. Qed.

Lemma step_refuse request pk db b member :
  status b ≠ "available" →
  borrow_step repr request pk (HasMember b member) db =
    (Finished (Some (error_response 400 ["This book is already borrowed."])),
     db).
Proof.
  intros Hs. unfold borrow_step.
  destruct (String.eqb (status b) "available") eqn:He; [|done].
  by apply String.eqb_eq in He.
Qed.

Lemma system_step_first r1 r2 pk1 pk2 s :
  system_step repr r1 r2 pk1 pk2 s true =
    {| shared := (borrow_step repr r1 pk1 (first s) (shared s)).2;
       first := (borrow_step repr r1 pk1 (first s) (shared s)).1;
       second := second s |}.
Proof.
  unfold system_step. by destruct (borrow_step repr r1 pk1 (first s) (shared s)).
Qed.

Lemma system_step_second r1 r2 pk1 pk2 s :
  system_step repr r1 r2 pk1 pk2 s false =
    {| shared := (borrow_step repr r2 pk2 (second s) (shared s)).2;
       first := first s;
       second := (borrow_step repr r2 pk2 (second s) (shared s)).1 |}.
Proof.
  unfold system_step. by destruct (borrow_step repr r2 pk2 (second s) (shared s)).
Qed.

(** A request that runs its three statements without interruption does
    what [borrow_view] does. *)
Lemma borrow_steps_refine_view r r' pk pk' db :
  let s := run_schedule repr r r' pk pk' [true; true; true] db in
  (first s, shared s)
  = (Finished (borrow_view repr r pk db).1, (borrow_view repr r pk db).2).
Proof.
  rewrite borrow_view_eq.
  unfold run_schedule, system_step; simpl.
  unfold bind, check_permissions.
  destruct (user r); simpl; [|done].
  rewrite get_object_eq.
  destruct (visible_book db r pk) as [book|]; simpl; [|done].
  destruct (truthy_int (member_id (request_data r))); simpl; [|done].
  unfold Member_get, read.
  destruct (member_id (request_data r)) as [mid|]; simpl; [|done].
  destruct (members db !! mid); simpl; [|done].
  by destruct (String.eqb (status book) "available").
Qed.

(** C4, amended: the handler performs its read, its check and its write
    as separate statements, with no transaction, lock or compare-and-set.
    For two borrow calls on the same available book, each passing the
    earlier checks: when they run one after the other the first succeeds
    and the second observes status 'borrowed' and fails with 400
    'This book is already borrowed.'; when both read before either
    writes, both observe 'available' and both succeed with 200, and the
    later write decides the borrower. *)
Theorem borrow_is_not_atomic db r1 r2 pk book m1 m2 row1 row2 :
  user r1 ≠ None → user r2 ≠ None →
  query_params r1 !! "status" = None → query_params r2 !! "status" = None →
  books db !! pk = Some book → status book = "available" →
  member_id (request_data r1) = Some m1 → m1 ≠ 0 →
  members db !! m1 = Some row1 →
  member_id (request_data r2) = Some m2 → m2 ≠ 0 →
  members db !! m2 = Some row2 →
  let serial :=
    run_schedule repr r1 r2 pk pk [true; true; true; false; false; false] db in
  let mixed :=
    run_schedule repr r1 r2 pk pk [true; false; true; false; true; false] db in
  (first serial
     = Finished (Some (mkResponse
                         (BookSerializer_data pk (borrowed_by m1 book)) 200))
   ∧ second serial
     = Finished (Some (error_response 400 ["This book is already borrowed."]))
   ∧ books (shared serial) !! pk = Some (borrowed_by m1 book))
  ∧ (first mixed
       = Finished (Some (mkResponse
                           (BookSerializer_data pk (borrowed_by m1 book)) 200))
     ∧ second mixed
       = Finished (Some (mkResponse
                           (BookSerializer_data pk (borrowed_by m2 book)) 200))
     ∧ books (shared mixed) !! pk = Some (borrowed_by m2 book)).
Proof.
  intros Hu1 Hu2 Hq1 Hq2 Hb Hs Hm1 Hz1 Hr1 Hm2 Hz2 Hr2.
  assert (Hv1 : visible_book db r1 pk = Some book)
    by by rewrite visible_book_unfiltered.
  assert (Hv2 : visible_book db r2 pk = Some book)
    by by rewrite visible_book_unfiltered.
  split.
  - unfold run_schedule. cbn [fold_left].
    rewrite !system_step_first, !system_step_second.
    cbn [first second shared].
    rewrite (step_start r1 pk db book) by done. cbn [fst snd].
    rewrite (step_member r1 pk db book m1 row1) by done. cbn [fst snd].
    rewrite step_save by done. cbn [fst snd].
    set (db1 := Book_save pk (borrowed_by m1 book) db).
    assert (Hv2' : visible_book db1 r2 pk = Some (borrowed_by m1 book)).
    { rewrite visible_book_unfiltered by done.
      unfold db1, Book_save. simpl. apply lookup_insert_eq. }
    rewrite (step_start r2 pk db1 _ Hu2 Hv2'). cbn [fst snd].
    rewrite (step_member r2 pk db1 _ m2 row2) by done. cbn [fst snd].
    rewrite step_refuse by done. cbn [fst snd].
    split; [done|]. split; [done|]. apply lookup_insert_eq.
  - unfold run_schedule. cbn [fold_left].
    rewrite !system_step_first, !system_step_second.
    cbn [first second shared].
    rewrite (step_start r1 pk db book) by done. cbn [fst snd].
    rewrite (step_start r2 pk db book) by done. cbn [fst snd].
    rewrite (step_member r1 pk db book m1 row1) by done. cbn [fst snd].
    rewrite (step_member r2 pk db book m2 row2) by done. cbn [fst snd].
    rewrite !step_save by done. cbn [fst snd].
    split; [done|]. split; [done|]. apply lookup_insert_eq.
Qed.

End Handlers.

Section Flattening.
Variable repr : value → string.

Lemma is_generic_spec field :
  is_generic field = bool_decide (field ∈ ["non_field_errors"; "detail"]).
Proof.
  unfold is_generic.
  repeat case_bool_decide; simpl; try done;
    repeat match goal with
      | H : _ ∈ _ :: _ |- _ => apply elem_of_cons in H; destruct H
      | H : _ ∈ [] |- _ => by apply elem_of_nil in H
      | H : ¬ _ ∈ _ |- _ => exfalso; apply H; subst; clear H
      | |- _ ∈ _ :: _ => apply elem_of_cons; tauto
      | |- _ ∈ _ :: _ => apply elem_of_cons; right
      end; try done.
Qed.

(** The inner loop appends one qualified string per message. *)
Lemma append_messages_strings field acc (ms : list string) :
  append_messages repr field acc (VStr <$> ms)
  = (acc ++ (qualified field <$> ms))%list.
Proof.
  unfold append_messages. revert acc.
  induction ms as [|m ms IH]; intros acc; simpl.
  - by rewrite app_nil_r.
  - rewrite IH. unfold qualified. rewrite <- is_generic_spec.
    destruct (is_generic field); by rewrite <- app_assoc.
Qed.

Lemma append_field_typed acc (item : string * field_messages) :
  append_field repr acc (prod_map id field_value item)
  = (acc ++ (qualified item.1 <$> messages_of item.2))%list.
Proof.
  destruct item as [field [m|ms]]; unfold append_field; simpl.
  - unfold qualified. rewrite <- is_generic_spec.
    by destruct (is_generic field).
  - apply append_messages_strings.
Qed.

Lemma fold_append_field_typed acc (fields : list (string * field_messages)) :
  fold_left (append_field repr) (prod_map id field_value <$> fields) acc
  = (acc ++ (item ← fields; qualified item.1 <$> messages_of item.2))%list.
Proof.
  revert acc. induction fields as [|item fields IH]; intros acc.
  - simpl. by rewrite app_nil_r.
  - rewrite fmap_cons. cbn [fold_left]. rewrite IH, append_field_typed.
    rewrite bind_cons. by rewrite <- app_assoc.
Qed.

(** The handler's loops compute the specification's flattening. *)
Lemma flatten_errors_spec (e : error_structure) :
  flatten_errors repr (to_value e) = spec_flatten e.
Proof.
  destruct e as [fields|ms|m]; simpl.
  - by rewrite fold_append_field_typed.
  - rewrite <- list_fmap_compose. apply list_fmap_id.
  - done.
Qed.

Lemma spec_flatten_length (e : error_structure) :
  length (spec_flatten e) = message_count e.
Proof.
  destruct e as [fields|ms|m]; simpl; [|done..].
  induction fields as [|item fields IH]; [done|].
  rewrite bind_cons, length_app, length_fmap, IH. by rewrite fmap_cons.
Qed.

(** Whatever the nesting, every entry the loops visit gives exactly one
    string. *)
Lemma append_messages_length field acc ms :
  length (append_messages repr field acc ms) = (length acc + length ms)%nat.
Proof.
  unfold append_messages. revert acc.
  induction ms as [|m ms IH]; intros acc; simpl; [lia|].
  rewrite IH. destruct (is_generic field); rewrite length_app; simpl; lia.
Qed.

Lemma append_field_length acc item :
  length (append_field repr acc item)
  = (length acc + match item.2 with
                  | VList ms => length ms
                  | _ => 1
                  end)%nat.
Proof.
  unfold append_field.
  destruct item.2; try apply append_messages_length;
    destruct (is_generic item.1); by rewrite length_app.
Qed.

Lemma flatten_errors_length d :
  length (flatten_errors repr d) = top_level_count d.
Proof.
  destruct d as [| | | |ms|items]; simpl; try done.
  - apply length_fmap.
  - assert (H : ∀ acc,
               length (fold_left (append_field repr) items acc)
               = (length acc
                  + sum_list ((λ item, match item.2 with
                                       | VList ms => length ms
                                       | _ => 1
                                       end) <$> items))%nat).
    { induction items as [|item items IH]; intros acc; simpl; [lia|].
      rewrite IH, append_field_length, <- Nat.add_assoc. reflexivity. }
    by rewrite H.
Qed.

(** C5: when the framework's handler produces an error response whose
    body is a mapping from fields to a message or a list of messages, a
    list of messages or a single message, the response keeps its status
    code and its body becomes {"error": [...]} with one string per
    message, prefixed by the field's name and a colon unless the field
    is 'non_field_errors' or 'detail'.  For any body, however nested, the
    result is a flat list of strings with one string per entry of the
    body. *)
Theorem errors_are_flattened (e : error_structure) exc response :
  exception_handler exc = Some response →
  data response = to_value e →
  ∃ r, custom_exception_handler repr exc = Some r
       ∧ status_code r = status_code response
       ∧ data r = VDict [("error", VList (VStr <$> spec_flatten e))]
       ∧ length (spec_flatten e) = message_count e
       ∧ ∀ exc' response',
           exception_handler exc' = Some response' →
           ∃ r' msgs,
             custom_exception_handler repr exc' = Some r'
             ∧ data r' = VDict [("error", VList (VStr <$> msgs))]
             ∧ length msgs = top_level_count (data response').
Proof.
  intros Hexc Hdata. unfold custom_exception_handler. rewrite Hexc.
  eexists. split; [done|]. simpl. split; [done|].
  rewrite Hdata, flatten_errors_spec. split; [done|].
  split; [apply spec_flatten_length|].
  intros exc' response' Hexc'. rewrite Hexc'.
  eexists _, _. split; [done|]. simpl. split; [done|].
  apply flatten_errors_length.
Qed.

End Flattening.

Section Login.
Variable repr : value → string.
Variable authenticate : option string → option string → option Z.


End Login.

(** ** Email validation *)

Lemma qs_exists_filter {A : Type} (P : Z * A → Prop) `{!∀ x, Decision (P x)}
    (qs : gmap Z A) :
  qs_exists (filter P qs) = true ↔ ∃ i x, qs !! i = Some x ∧ P (i, x).
Proof.
  unfold qs_exists. rewrite bool_decide_eq_true. split.
  - intros Hne. apply map_choose in Hne as (i & x & Hix).
    apply map_lookup_filter_Some in Hix. by exists i, x.
  - intros (i & x & Hix & HP) Hempty.
    assert (Hf : filter P qs !! i = Some x)
      by by apply map_lookup_filter_Some.
    by rewrite Hempty, lookup_empty in Hf.
Qed.

Lemma email_taken_iff db v :
  qs_exists (filter_email v (members db)) = true
  ↔ ∃ i m, members db !! i = Some m ∧ email m = v.
Proof. unfold filter_email. by rewrite qs_exists_filter. Qed.

Lemma email_taken_by_other_iff db j v :
  qs_exists (exclude_id j (filter_email v (members db))) = true
  ↔ ∃ i m, i ≠ j ∧ members db !! i = Some m ∧ email m = v.
Proof.
  unfold exclude_id, filter_email. rewrite qs_exists_filter. split.
  - intros (i & m & Hf & Hne). apply map_lookup_filter_Some in Hf as [Hi He].
    by exists i, m.
  - intros (i & m & Hne & Hi & He). exists i, m. split; [|done].
    by apply map_lookup_filter_Some.
Qed.

(** C7: [validate_email] rejects a create exactly when some member has the
    submitted email, and rejects an update of member [j] exactly when some
    member other than [j] has it; a value that is not rejected is returned
    unchanged; under the uniqueness of emails an update that resubmits the
    member's own email is accepted. *)
Theorem validate_email_unique db j m v :
  (rejected (validate_email db None v)
   ↔ ∃ i m', members db !! i = Some m' ∧ email m' = v)
  ∧ (rejected (validate_email db (Some j) v)
     ↔ ∃ i m', i ≠ j ∧ members db !! i = Some m' ∧ email m' = v)
  ∧ (∀ inst, ¬ rejected (validate_email db inst v) →
             validate_email db inst v = inr v)
  ∧ (emails_unique db → members db !! j = Some m →
     validate_email db (Some j) (email m) = inr (email m)).
Proof.
  split; [|split; [|split]].
  - rewrite <- email_taken_iff. unfold validate_email, rejected.
    destruct (qs_exists _); split; try done; [by eexists|by intros []].
  - rewrite <- email_taken_by_other_iff. unfold validate_email, rejected.
    destruct (qs_exists _); split; try done; [by eexists|by intros []].
  - intros inst Hnot. unfold validate_email in *.
    destruct inst; destruct (qs_exists _); try done;
      exfalso; apply Hnot; by eexists.
  - intros Huniq Hj. unfold validate_email.
    destruct (qs_exists _) eqn:Hex; [|done].
    apply email_taken_by_other_iff in Hex as (i & m' & Hne & Hi & He).
    by destruct Hne; apply (Huniq i j m' m).
Qed.

(** ** The response envelope *)






(** The status texts of the codes the tests look at. *)
Example render_status_texts :
  render id VNone (Some {| ctx_response := Some (mkResponse VNone 200) |})
  = envelope 200 "OK" VNone
  ∧ render id VNone (Some {| ctx_response := Some (mkResponse VNone 201) |})
    = envelope 201 "CREATED" VNone
  ∧ render id VNone (Some {| ctx_response := Some (mkResponse VNone 404) |})
    = envelope 404 "NOT FOUND" VNone.
Proof. done. Qed.

(** ** Routing *)

Section Routing.
Variable repr : value → string.
Variable authenticate : option string → option string → option Z.
Variable to_pk : string → option Z.

Lemma detail_view_return_book request pk_str pk db :
  to_pk pk_str = Some pk →
  detail_view repr to_pk return_book request pk_str db
  = return_book_view repr request pk db.
Proof. intros Hpk. unfold detail_view, return_book_view. by rewrite Hpk. Qed.

Lemma return_book_url pk_str :
  lookup_segment pk_str = true →
  urlpatterns ["books"; pk_str; "return_book"]
  = Some (ActionRoute "books" (action true [POST] None "return_book") pk_str).
Proof. intros Hseg. unfold urlpatterns. simpl. by rewrite Hseg. Qed.

Lemma return_url_unknown pk_str :
  urlpatterns ["books"; pk_str; "return"] = None.
Proof. done. Qed.

(** C9, amended: the return action is exposed at
    POST /books/{id}/return_book/ (the URL segment of an extra action is
    the name of its function): an authenticated POST to that path, for
    the id of a borrowed book that the request's status filter admits,
    gives 200 with the updated book and saves it; no URL matches
    /books/{id}/return/. *)
Theorem return_action_route fresh_key request pk_str pk db book :
  lookup_segment pk_str = true → to_pk pk_str = Some pk →
  user request ≠ None →
  visible_book db request pk = Some book → status book = "borrowed" →
  dispatch repr authenticate to_pk fresh_key POST
    ["books"; pk_str; "return_book"] request db
  = Served (Some (mkResponse (BookSerializer_data pk (returned book)) 200))
      (Book_save pk (returned book) db)
  ∧ dispatch repr authenticate to_pk fresh_key POST
      ["books"; pk_str; "return"] request db
    = NoRoute.
Proof.
  intros Hseg Hpk Hu Hv Hs. split.
  - unfold dispatch. rewrite return_book_url by done. simpl.
    rewrite detail_view_return_book with (pk := pk) by done.
    rewrite return_book_view_eq, Hv, Hs.
    by destruct (user request).
  - unfold dispatch. by rewrite return_url_unknown.
Qed.

End Routing.

(** * Concrete instances *)

(** ** borrow *)



(** ** return_book *)

Lemma return_checks_in_order_witness :
  user (mk_request (Some 7) ∅ None) ≠ None
  ∧ return_as_amended db0 (mk_request (Some 7) ∅ None) 2
      (return_book_view repr0 (mk_request (Some 7) ∅ None) 2 db0).
Proof. split; [done|]. by apply return_checks_in_order. Defined.

(** C3 as worded fails: with the query parameter status=available the
    borrowed book 2 exists, yet the answer is 404 and the book stays
    borrowed. *)
Lemma return_as_claimed_fails :
  ¬ return_as_claimed db0
      (mk_request (Some 7) {[ "status" := "available" ]} None) 2
      (return_book_view repr0
         (mk_request (Some 7) {[ "status" := "available" ]} None) 2 db0).
Proof. vm_compute. intros [Hr _]. discriminate Hr. Qed.

(** ** The invariant *)

Lemma actions_preserve_book_inv_witness :
  books db0 !! 2 = Some borrowed_book ∧ book_inv borrowed_book
  ∧ ∃ b', books (return_book_view repr0 (mk_request (Some 7) ∅ None) 2 db0).2
            !! 2 = Some b'
          ∧ book_inv b'.
Proof.
  assert (H1 : books db0 !! 2 = Some borrowed_book) by done.
  assert (H2 : book_inv borrowed_book) by done.
  split; [done|]. split; [done|].
  exact (proj1 (proj2 (actions_preserve_book_inv repr0
                         (mk_request (Some 7) ∅ None) 2 db0 2 borrowed_book
                         H1 H2))).
Defined.

(** C2 as worded fails: not every book state satisfies the invariant.
    Create member 1 and book 1, let the member borrow the book, delete the
    member: the book is left with status 'borrowed' and no borrower. *)
Lemma book_inv_not_universal :
  ¬ ∀ db, reachable repr0 true db → all_books_inv db.
Proof.
  intros H.
  set (d1 := {| members := <[1 := john]> ∅; books := ∅; tokens := ∅ |}).
  set (d2 := Book_save 1 (Book_new "Available Book" "Test Author" 2023) d1).
  set (d3 := (borrow_view repr0 (mk_request (Some 7) ∅ (Some 1)) 1 d2).2).
  assert (Hreach : reachable repr0 true (Member_delete 1 d3)).
  { apply reach_member_delete; [done|]. apply reach_borrow.
    apply reach_book_create; [|done].
    apply (reach_member_create repr0 true
             {| members := ∅; books := ∅; tokens := ∅ |} 1 john); [|done].
    apply reach_empty. }
  specialize (H _ Hreach 1
                {| title := "Available Book"; author := "Test Author";
                   published_year := 2023; status := "borrowed";
                   borrower := None |}).
  destruct H as [H _]; [by vm_compute|]. by apply H.
Qed.

(** ** Member deletion *)

Lemma delete_borrower_keeps_status_witness :
  members (Member_delete 1 db0) !! 1 = None
  ∧ ∃ b', books (Member_delete 1 db0) !! 2 = Some b'
          ∧ status b' = "borrowed" ∧ borrower b' = None
          ∧ title b' = title borrowed_book ∧ author b' = author borrowed_book
          ∧ published_year b' = published_year borrowed_book
          ∧ ¬ book_inv b'.
Proof. by apply (delete_borrower_keeps_status db0 1 2 borrowed_book). Defined.

(** ** Concurrent borrows *)

Lemma borrow_is_not_atomic_witness :
  let r1 := mk_request (Some 7) ∅ (Some 1) in
  let r2 := mk_request (Some 7) ∅ (Some 2) in
  let mixed :=
    run_schedule repr0 r1 r2 1 1 [true; false; true; false; true; false] db0 in
  first mixed
  = Finished (Some (mkResponse
                      (BookSerializer_data 1 (borrowed_by 1 available_book))
                      200))
  ∧ second mixed
    = Finished (Some (mkResponse
                        (BookSerializer_data 1 (borrowed_by 2 available_book))
                        200))
  ∧ books (shared mixed) !! 1 = Some (borrowed_by 2 available_book).
Proof.
  exact (proj2 (borrow_is_not_atomic repr0 db0
                  (mk_request (Some 7) ∅ (Some 1))
                  (mk_request (Some 7) ∅ (Some 2))
                  1 available_book 1 2 john jane
                  ltac:(done) ltac:(done) ltac:(done) ltac:(done)
                  ltac:(done) ltac:(done) ltac:(done) ltac:(done)
                  ltac:(done) ltac:(done) ltac:(done) ltac:(done))).
Defined.

(** C4 as worded fails: there is a schedule of two borrow calls on book 1
    in which both succeed. *)
Lemma both_borrows_succeed :
  ¬ ∀ schedule,
      let s := run_schedule repr0 (mk_request (Some 7) ∅ (Some 1))
                 (mk_request (Some 7) ∅ (Some 2)) 1 1 schedule db0 in
      ¬ (succeeded (first s) = true ∧ succeeded (second s) = true).
Proof.
  intros H. apply (H [true; false; true; false; true; false]).
  by vm_compute.
Qed.

(** ** Error flattening *)

Lemma errors_are_flattened_witness :
  ∃ r, custom_exception_handler repr0
         (ValidationError
            (VDict [("title", VList [VStr "This field is required."]);
                    ("non_field_errors", VList [VStr "a"; VStr "b"]);
                    ("detail", VStr "c")]))
       = Some r
       ∧ status_code r = 400
       ∧ data r = VDict [("error",
                          VList [VStr "title: This field is required.";
                                 VStr "a"; VStr "b"; VStr "c"])].
Proof.
  destruct (errors_are_flattened repr0
              (ErrMapping [("title", ManyMessages ["This field is required."]);
                           ("non_field_errors", ManyMessages ["a"; "b"]);
                           ("detail", OneMessage "c")])
              (ValidationError
                 (VDict [("title", VList [VStr "This field is required."]);
                         ("non_field_errors", VList [VStr "a"; VStr "b"]);
                         ("detail", VStr "c")]))
              _ eq_refl eq_refl) as (r & Hr & Hc & Hd & _).
  exists r. split; [exact Hr|]. split; [exact Hc|exact Hd].
Defined.

(** ** login *)


(** The token of a user who already has one is reused; a user without one
    gets the fresh key, which is stored. *)
Example login_reuses_or_creates :
  (login_view repr0 authenticate0 "k"
     (login_request (Some "testadmin") (Some "testpass123")) db0).1
  = Some (mkResponse (VDict [("token", VStr "abc123")]) 200)
  ∧ (login_view repr0 authenticate0 "k"
       (login_request (Some "second") (Some "pw")) db0).1
    = Some (mkResponse (VDict [("token", VStr "k")]) 200)
  ∧ tokens (login_view repr0 authenticate0 "k"
              (login_request (Some "second") (Some "pw")) db0).2 !! 8
    = Some "k".
Proof. by vm_compute. Qed.

(** ** Email validation *)

Lemma validate_email_unique_witness :
  validate_email db0 (Some 1) (email john) = inr (email john).
Proof.
  apply (validate_email_unique db0 1 john (email john)); [|done].
  intros i j m m' Hi Hj He.
  destruct (decide (i = 1)) as [->|]; destruct (decide (j = 1)) as [->|];
    try done;
    repeat match goal with
      | H : members db0 !! ?k = Some _, Hk : ?k ≠ 1 |- _ =>
          unfold db0 in H; simpl in H;
          rewrite lookup_insert_ne in H by done;
          apply lookup_singleton_Some in H as [<- <-]
      | H : members db0 !! 1 = Some _ |- _ =>
          vm_compute in H; injection H as <-
      end; try done.
Defined.

(** ** Routing *)

Lemma return_action_route_witness :
  dispatch repr0 authenticate0 decimal_pk "k" POST
    ["books"; "2"; "return_book"] (mk_request (Some 7) ∅ None) db0
  = Served (Some (mkResponse (BookSerializer_data 2 (returned borrowed_book))
                    200))
      (Book_save 2 (returned borrowed_book) db0)
  ∧ dispatch repr0 authenticate0 decimal_pk "k" POST
      ["books"; "2"; "return"] (mk_request (Some 7) ∅ None) db0
    = NoRoute.
Proof.
  by apply (return_action_route repr0 authenticate0 decimal_pk "k"
              (mk_request (Some 7) ∅ None) "2" 2 db0 borrowed_book).
Defined.

(** C9 as worded fails: a POST to /books/2/return/ for the borrowed book 2
    is not answered with 200; the path matches no URL. *)
Lemma return_path_not_routed :
  ¬ ∃ r db',
      dispatch repr0 authenticate0 decimal_pk "k" POST
        ["books"; "2"; "return"] (mk_request (Some 7) ∅ None) db0
      = Served (Some r) db'
      ∧ status_code r = 200.
Proof. intros (r & db' & H & _). vm_compute in H. discriminate H. Qed.

(** * Further properties of the code *)

(** ** Status validation *)

(** X1: [validate_status] returns the value unchanged exactly for
    'available' and 'borrowed'; every other value is refused with the
    message that lists the two statuses. *)
Theorem validate_status_accepts v :
  (validate_status v = inr v ↔ v = "available" ∨ v = "borrowed")
  ∧ (v ≠ "available" → v ≠ "borrowed" →
     validate_status v
     = inl (ValidationError
              (VStr "Invalid status. Must be one of: available, borrowed"))).
Proof.
  unfold validate_status, valid_statuses. split.
  - case_bool_decide as Hin; split; try done.
    + intros _. apply elem_of_cons in Hin as [->|Hin]; [by left|].
      apply elem_of_cons in Hin as [->|Hin]; [by right|].
      by apply elem_of_nil in Hin.
    + intros Hv. destruct Hin.
      destruct Hv as [-> | ->]; repeat constructor.
  - intros H1 H2. case_bool_decide as Hin; [|done].
    apply elem_of_cons in Hin as [->|Hin]; [done|].
    apply elem_of_cons in Hin as [->|Hin]; [done|].
    by apply elem_of_nil in Hin.
Qed.

Section Further.
Variable repr : value → string.

(** ** The queryset of the book viewset *)

(** X2: [get_queryset] never changes the database and returns the books
    whose status equals the [status] query parameter; without the parameter,
    or with an empty one, it returns every book. *)
Theorem get_queryset_lookup request db :
  ∃ qs, get_queryset request db = (inr qs, db)
        ∧ (∀ pk b, qs !! pk = Some b
                   ↔ books db !! pk = Some b
                     ∧ match query_params request !! "status" with
                       | Some s => s = "" ∨ status b = s
                       | None => True
                       end)
        ∧ (truthy_str (query_params request !! "status") = false →
           qs = books db).
Proof.
  unfold get_queryset.
  destruct (query_params request !! "status") as [s|] eqn:Hq; simpl.
  - destruct (String.eqb_spec s "") as [->|Hs]; simpl; unfold read.
    + eexists. split; [done|]. split; [|done]. intros pk b.
      split; [intros H; split; [done|by left]|by intros [H _]].
    + eexists. split; [done|]. split; [|done]. intros pk b.
      rewrite map_lookup_filter_Some. simpl.
      split; intros [H1 H2]; (split; [done|]).
      * right. by injection H2.
      * by destruct H2 as [->| ->].
  - unfold read. eexists. split; [done|]. split; [|done]. intros pk b.
    split; [by intros H|by intros [H _]].
Qed.

Lemma visible_book_Some db request pk b :
  visible_book db request pk = Some b → books db !! pk = Some b.
Proof.
  unfold visible_book. destruct (books db !! pk) as [b'|]; simpl; [|done].
  by destruct (status_filter_admits request b').
Qed.

Lemma visible_book_without_query db request pk :
  visible_book db (without_query request) pk = books db !! pk.
Proof. by apply visible_book_unfiltered. Qed.

(** X3: the [status] query parameter can hide a book from the two actions
    but changes nothing else: with the parameter an action either answers
    404 and leaves the database alone, or does exactly what it does for the
    same request without a query string. *)
Theorem status_filter_only_hides request pk db :
  (borrow_view repr request pk db
   = borrow_view repr (without_query request) pk db
   ∨ (is_status (borrow_view repr request pk db).1 404
      ∧ (borrow_view repr request pk db).2 = db))
  ∧ (return_book_view repr request pk db
     = return_book_view repr (without_query request) pk db
     ∨ (is_status (return_book_view repr request pk db).1 404
        ∧ (return_book_view repr request pk db).2 = db)).
Proof.
  rewrite !borrow_view_eq, !return_book_view_eq.
  rewrite !visible_book_without_query. simpl.
  destruct (user request); [|by split; left].
  destruct (visible_book db request pk) as [b|] eqn:Hv.
  - apply visible_book_Some in Hv. rewrite Hv. by split; left.
  - split; right; by split; [eexists|].
Qed.

(** ** Success and failure of the two actions *)

Lemma truthy_int_Some mid : truthy_int (Some mid) = true ↔ mid ≠ 0.
Proof.
  simpl. destruct (Z.eqb_spec mid 0) as [->|Hne]; simpl; split; try done.
Qed.

Lemma borrow_view_ok request pk db :
  ok_response (borrow_view repr request pk db).1 = true →
  ∃ book mid row,
    user request ≠ None
    ∧ visible_book db request pk = Some book
    ∧ status book = "available"
    ∧ member_id (request_data request) = Some mid ∧ mid ≠ 0
    ∧ members db !! mid = Some row
    ∧ borrow_view repr request pk db
      = (Some (mkResponse (BookSerializer_data pk (borrowed_by mid book)) 200),
         Book_save pk (borrowed_by mid book) db).
Proof.
  rewrite borrow_view_eq.
  destruct (user request); [|done].
  destruct (visible_book db request pk) as [book|]; [|done].
  destruct (truthy_int (member_id (request_data request))) eqn:Ht; [|done].
  destruct (member_id (request_data request)) as [mid|]; [|done].
  apply truthy_int_Some in Ht. simpl.
  destruct (members db !! mid) as [row|] eqn:Hr; [|done]. simpl.
  destruct (String.eqb_spec (status book) "available"); simpl; [|done].
  intros _. exists book, mid, row. by repeat split.
Qed.

Lemma return_book_view_ok request pk db :
  ok_response (return_book_view repr request pk db).1 = true →
  ∃ book,
    user request ≠ None
    ∧ visible_book db request pk = Some book
    ∧ status book = "borrowed"
    ∧ return_book_view repr request pk db
      = (Some (mkResponse (BookSerializer_data pk (returned book)) 200),
         Book_save pk (returned book) db).
Proof.
  rewrite return_book_view_eq.
  destruct (user request); [|done].
  destruct (visible_book db request pk) as [book|]; [|done].
  destruct (String.eqb_spec (status book) "borrowed"); simpl; [|done].
  intros _. exists book. by repeat split.
Qed.

Lemma borrow_view_failed request pk db :
  ok_response (borrow_view repr request pk db).1 = false →
  (borrow_view repr request pk db).2 = db.
Proof.
  rewrite borrow_view_eq.
  destruct (user request); [|done].
  destruct (visible_book db request pk) as [book|]; [|done].
  destruct (negb (truthy_int (member_id (request_data request)))); [done|].
  destruct (member_id (request_data request)) as [mid|]; [|done]. simpl.
  destruct (members db !! mid); [|done]. simpl.
  by destruct (String.eqb (status book) "available").
Qed.

Lemma return_book_view_failed request pk db :
  ok_response (return_book_view repr request pk db).1 = false →
  (return_book_view repr request pk db).2 = db.
Proof.
  rewrite return_book_view_eq.
  destruct (user request); [|done].
  destruct (visible_book db request pk) as [book|]; [|done].
  by destruct (String.eqb (status book) "borrowed").
Qed.


(** X5: neither action ever touches the member table, the token table or
    a book other than the addressed one, and an action that does not answer
    200 leaves the whole database as it was. *)
Theorem actions_frame request pk db :
  let out_b := borrow_view repr request pk db in
  let out_r := return_book_view repr request pk db in
  (members out_b.2 = members db ∧ tokens out_b.2 = tokens db
   ∧ (∀ i, i ≠ pk → books out_b.2 !! i = books db !! i)
   ∧ (ok_response out_b.1 = false → out_b.2 = db))
  ∧ (members out_r.2 = members db ∧ tokens out_r.2 = tokens db
     ∧ (∀ i, i ≠ pk → books out_r.2 !! i = books db !! i)
     ∧ (ok_response out_r.1 = false → out_r.2 = db)).
Proof.
  simpl. split.
  - destruct (borrow_view_books repr request pk db) as [->|(b & _ & Hb)].
    + by repeat split.
    + rewrite Hb. repeat split; try done.
      * intros i Hi. simpl. by rewrite lookup_insert_ne.
      * rewrite <- Hb. apply borrow_view_failed.
  - destruct (return_book_view_books repr request pk db) as [->|(b & _ & Hb)].
    + by repeat split.
    + rewrite Hb. repeat split; try done.
      * intros i Hi. simpl. by rewrite lookup_insert_ne.
      * rewrite <- Hb. apply return_book_view_failed.
Qed.

(** ** Sequences of actions *)

Lemma returned_borrowed_by mid book :
  status book = "available" → borrower book = None →
  returned (borrowed_by mid book) = book.
Proof. destruct book. simpl. by intros -> ->. Qed.

Lemma Book_save_twice pk b1 b2 db :
  Book_save pk b2 (Book_save pk b1 db) = Book_save pk b2 db.
Proof. unfold Book_save, set_books. simpl. by rewrite insert_insert_eq. Qed.

Lemma Book_save_same pk b db :
  books db !! pk = Some b → Book_save pk b db = db.
Proof.
  intros Hb. unfold Book_save, set_books. rewrite insert_id by done.
  by destruct db.
Qed.

Lemma visible_book_saved request pk b db :
  query_params request !! "status" = None →
  visible_book (Book_save pk b db) request pk = Some b.
Proof.
  intros Hq. rewrite visible_book_unfiltered by done.
  apply lookup_insert_eq.
Qed.

(** X6: a successful borrow followed by a return (by an authenticated
    request without a status filter) brings the database back to exactly
    the state before the borrow, provided the book had no borrower to begin
    with; the return answers 200 with the original book. *)
Theorem borrow_then_return_restores rb rr pk db book :
  ok_response (borrow_view repr rb pk db).1 = true →
  books db !! pk = Some book → borrower book = None →
  user rr ≠ None → query_params rr !! "status" = None →
  return_book_view repr rr pk (borrow_view repr rb pk db).2
  = (Some (mkResponse (BookSerializer_data pk book) 200), db).
Proof.
  intros Hok Hb Hnone Hu Hq.
  apply borrow_view_ok in Hok
    as (book' & mid & row & _ & Hv & Hs & _ & _ & _ & ->).
  apply visible_book_Some in Hv. rewrite Hb in Hv. injection Hv as <-.
  rewrite return_book_view_eq. simpl.
  rewrite visible_book_saved by done. simpl.
  destruct (user rr); [|done].
  rewrite returned_borrowed_by, Book_save_twice, Book_save_same by done.
  done.
Qed.

(** X7: after a successful return, a second return of the same book (by
    an authenticated request without a status filter) is refused with 400
    'This book is not currently borrowed.' and changes nothing. *)
Theorem second_return_fails r1 r2 pk db :
  ok_response (return_book_view repr r1 pk db).1 = true →
  user r2 ≠ None → query_params r2 !! "status" = None →
  return_book_view repr r2 pk (return_book_view repr r1 pk db).2
  = (Some (error_response 400 ["This book is not currently borrowed."]),
     (return_book_view repr r1 pk db).2).
Proof.
  intros Hok Hu Hq.
  apply return_book_view_ok in Hok as (book & _ & _ & _ & ->).
  rewrite return_book_view_eq. simpl.
  rewrite visible_book_saved by done. simpl.
  by destruct (user r2).
Qed.

(** ** Referential integrity *)

Lemma refs_ok_save pk b db :
  refs_ok db →
  (∀ mid, borrower b = Some mid → is_Some (members db !! mid)) →
  refs_ok (Book_save pk b db).
Proof.
  intros Hdb Hb i b' mid. unfold Book_save. simpl.
  destruct (decide (pk = i)) as [->|Hne].
  - rewrite lookup_insert_eq. intros [= <-]. apply Hb.
  - rewrite lookup_insert_ne by done. apply Hdb.
Qed.

(** X8: borrow, return and the deletion of a member keep the foreign key
    sound: if every borrower is a row of the member table before, the same
    holds afterwards. *)
Theorem referential_integrity_kept request pk mid db :
  refs_ok db →
  refs_ok (borrow_view repr request pk db).2
  ∧ refs_ok (return_book_view repr request pk db).2
  ∧ refs_ok (Member_delete mid db).
Proof.
  intros Hdb. split; [|split].
  - destruct (ok_response (borrow_view repr request pk db).1) eqn:Hok.
    + apply borrow_view_ok in Hok
        as (book & m & row & _ & _ & _ & _ & _ & Hrow & ->).
      apply refs_ok_save; [done|]. simpl. intros ? [= <-]. by eexists.
    + by rewrite borrow_view_failed.
  - destruct (ok_response (return_book_view repr request pk db).1) eqn:Hok.
    + apply return_book_view_ok in Hok as (book & _ & _ & _ & ->).
      by apply refs_ok_save.
    + by rewrite return_book_view_failed.
  - intros i b' m. unfold Member_delete. simpl. rewrite lookup_fmap.
    destruct (books db !! i) as [b|] eqn:Hb; simpl; [|done].
    intros [= <-]. unfold set_null.
    destruct (decide (borrower b = Some mid)) as [Heq|Hne]; simpl; [done|].
    intros Hm. rewrite lookup_delete_ne by congruence.
    by apply (Hdb i b m).
Qed.

(** X9: deleting a member removes that row only, leaves the tokens alone,
    deletes no book, and changes of a book nothing but the borrower, and
    that only for the books the member had borrowed; afterwards no book
    refers to the deleted member. *)
Theorem member_delete_frame mid db :
  let db' := Member_delete mid db in
  members db' !! mid = None
  ∧ (∀ i, i ≠ mid → members db' !! i = members db !! i)
  ∧ tokens db' = tokens db
  ∧ (∀ pk, is_Some (books db' !! pk) ↔ is_Some (books db !! pk))
  ∧ (∀ pk b', books db' !! pk = Some b' →
       borrower b' ≠ Some mid
       ∧ ∃ b, books db !! pk = Some b
              ∧ title b' = title b ∧ author b' = author b
              ∧ published_year b' = published_year b
              ∧ status b' = status b
              ∧ (borrower b ≠ Some mid → b' = b)).
Proof.
  simpl. split; [apply lookup_delete_eq|].
  split; [by intros i Hi; apply lookup_delete_ne|].
  split; [done|]. split.
  - intros pk. rewrite lookup_fmap. by rewrite fmap_is_Some.
  - intros pk b'. rewrite lookup_fmap.
    destruct (books db !! pk) as [b|]; simpl; [|done].
    intros [= <-]. unfold set_null.
    destruct (decide (borrower b = Some mid)) as [Heq|Hne]; simpl.
    + split; [done|]. exists b. by repeat split.
    + split; [done|]. exists b. by repeat split.
Qed.

End Further.

Section FurtherLogin.
Variable repr : value → string.
Variable authenticate : option string → option string → option Z.

Lemma login_view_eq fresh_key request db :
  login_view repr authenticate fresh_key request db =
    if negb (truthy_str (username (request_data request)))
    then (Some (error_response 400 ["username: This field is required."]), db)
    else if negb (truthy_str (password (request_data request)))
    then (Some (error_response 400 ["password: This field is required."]), db)
    else
      match authenticate (username (request_data request))
              (password (request_data request)) with
      | None => (Some (error_response 401 ["Invalid credentials."]), db)
      | Some uid =>
          match tokens db !! uid with
          | Some key =>
              (Some (mkResponse (VDict [("token", VStr key)]) 200), db)
          | None =>
              (Some (mkResponse (VDict [("token", VStr fresh_key)]) 200),
               {| members := members db; books := books db;
                  tokens := <[uid := fresh_key]> (tokens db) |})
          end
      end.
Proof.
  unfold login_view, api, login.
  destruct (truthy_str (username (request_data request))); simpl; [|done].
  destruct (truthy_str (password (request_data request))); simpl; [|done].
  destruct (authenticate _ _) as [uid|]; simpl; [|done].
  unfold bind, Token_get_or_create.
  by destruct (tokens db !! uid).
Qed.

(** X10: the token a successful login returns is the one stored for the
    authenticated user afterwards, and logging in again with the same
    credentials returns the same token and changes nothing, whatever fresh
    key is on offer. *)
Theorem login_token_stable fresh1 fresh2 request db :
  let out := login_view repr authenticate fresh1 request db in
  ok_response out.1 = true →
  (∃ uid key,
      authenticate (username (request_data request))
        (password (request_data request)) = Some uid
      ∧ tokens out.2 !! uid = Some key
      ∧ out.1 = Some (mkResponse (VDict [("token", VStr key)]) 200))
  ∧ login_view repr authenticate fresh2 request out.2 = out.
Proof.
  simpl. rewrite (login_view_eq fresh1 request db).
  destruct (truthy_str (username (request_data request))) eqn:Hu; simpl;
    [|done].
  destruct (truthy_str (password (request_data request))) eqn:Hp; simpl;
    [|done].
  destruct (authenticate _ _) as [uid|] eqn:Ha; simpl; [|done].
  destruct (tokens db !! uid) as [key|] eqn:Hk; simpl; intros _.
  - split; [by exists uid, key|].
    by rewrite login_view_eq, Hu, Hp, Ha, Hk.
  - split; [exists uid, fresh1; by rewrite lookup_insert_eq|].
    rewrite login_view_eq, Hu, Hp, Ha. simpl. by rewrite lookup_insert_eq.
Qed.

(** X11: login never touches the members or the books and never replaces
    or removes a token that is already stored; a login that does not answer
    200 leaves the database as it was. *)
Theorem login_frame fresh_key request db :
  let out := login_view repr authenticate fresh_key request db in
  members out.2 = members db ∧ books out.2 = books db
  ∧ (∀ uid key, tokens db !! uid = Some key → tokens out.2 !! uid = Some key)
  ∧ (ok_response out.1 = false → out.2 = db).
Proof.
  simpl. rewrite login_view_eq.
  destruct (negb (truthy_str (username (request_data request))));
    [by repeat split|].
  destruct (negb (truthy_str (password (request_data request))));
    [by repeat split|].
  destruct (authenticate _ _) as [uid|]; [|by repeat split].
  destruct (tokens db !! uid) as [key|] eqn:Hk; [by repeat split|].
  simpl. repeat split; try done.
  intros uid' key' Hk'. destruct (decide (uid = uid')) as [->|Hne].
  - by rewrite Hk in Hk'.
  - by rewrite lookup_insert_ne.
Qed.

End FurtherLogin.

Section FurtherFlattening.
Variable repr : value → string.





(** X13: what the handler makes of the exceptions the views raise.  A
    validation error raised with a bare message and an authentication
    failure are reported as that message alone (the key 'detail' never
    shows); a validation error raised for a field is reported as
    'field: message' for each message; a 404 is reported with its message;
    the status code is the exception's; an exception the framework does not
    handle is passed on unhandled. *)
Theorem handler_on_raised_exceptions msg field msgs other :
  custom_exception_handler repr (ValidationError (VStr msg))
  = Some (error_response 400 [msg])
  ∧ custom_exception_handler repr (AuthenticationFailed msg)
    = Some (error_response 401 [msg])
  ∧ custom_exception_handler repr (Http404 msg)
    = Some (error_response 404 [msg])
  ∧ custom_exception_handler repr
      (ValidationError (VDict [(field, VList (VStr <$> msgs))]))
    = Some (error_response 400 (qualified field <$> msgs))
  ∧ custom_exception_handler repr (OtherError other) = None.
Proof.
  split; [done|]. split; [done|]. split; [done|]. split; [|done].
  unfold custom_exception_handler, ValidationError. simpl.
  unfold append_field. simpl.
  by rewrite append_messages_strings.
Qed.

(** X14: an error response of the handler is rendered as the envelope
    whose code is the exception's status code and whose data is
    {"error": [...]}, a flat list of strings; without a response in the
    renderer context (or without a context) the data is rendered as it is,
    with no envelope. *)
Theorem render_error_response {bytes : Type} (super_render : value → bytes)
    exc r d :
  custom_exception_handler repr exc = Some r →
  (∃ msgs,
      render super_render (data r) (Some {| ctx_response := Some r |})
      = super_render
          (envelope (status_code r)
             (upper (replace "_" " " (status_text r)))
             (VDict [("error", VList (VStr <$> msgs))]))
      ∧ match exc with
        | APIException code _ => status_code r = code
        | Http404 _ => status_code r = 404
        | OtherError _ => False
        end)
  ∧ render super_render d None = super_render d
  ∧ render super_render d (Some {| ctx_response := None |}) = super_render d.
Proof.
  unfold custom_exception_handler.
  destruct (exception_handler exc) as [r0|] eqn:He; [|done].
  intros [= <-]. split; [|done]. eexists. split; [done|].
  destruct exc; simpl in He; try done; by injection He as <-.
Qed.

End FurtherFlattening.

(** ** Routing of the custom views *)


Section FurtherRouting.
Variable repr : value → string.
Variable authenticate : option string → option string → option Z.
Variable to_pk : string → option Z.



End FurtherRouting.

(** ** Email validation and the uniqueness of emails *)

Lemma validate_email_accepts_fresh db inst v :
  validate_email db inst v = inr v →
  ∀ j mj, Some j ≠ inst → members db !! j = Some mj → email mj ≠ v.
Proof.
  intros Hv j mj Hj Hmj He. unfold validate_email in Hv.
  destruct inst as [i|].
  - destruct (qs_exists _) eqn:Hex; [done|].
    assert (Ht : qs_exists (exclude_id i (filter_email v (members db))) = true).
    { apply email_taken_by_other_iff. exists j, mj.
      split; [congruence|done]. }
    by rewrite Ht in Hex.
  - destruct (qs_exists _) eqn:Hex; [done|].
    assert (Ht : qs_exists (filter_email v (members db)) = true).
    { apply email_taken_iff. by exists j, mj. }
    by rewrite Ht in Hex.
Qed.

(** X17: [validate_email] is enough to keep emails unique: saving a new
    member whose email it accepted for a create, or saving member [i] with
    an email it accepted for an update of [i], leaves the member table
    without two rows of the same email. *)
Theorem validated_email_keeps_unique db i m :
  emails_unique db →
  (members db !! i = None →
   validate_email db None (email m) = inr (email m) →
   emails_unique (Member_save i m db))
  ∧ (validate_email db (Some i) (email m) = inr (email m) →
     emails_unique (Member_save i m db)).
Proof.
  intros Huniq.
  assert (Hgen : (∀ j mj, j ≠ i → members db !! j = Some mj →
                          email mj ≠ email m) →
                 emails_unique (Member_save i m db)).
  { intros Hfresh a b ma mb. unfold Member_save. simpl.
    destruct (decide (i = a)) as [<-|Ha]; destruct (decide (i = b)) as [<-|Hb];
      rewrite ?lookup_insert_eq, ?lookup_insert_ne by done; try done.
    - intros [= <-] Hmb He. by destruct (Hfresh b mb).
    - intros Hma [= <-] He. by destruct (Hfresh a ma).
    - apply Huniq. }
  split.
  - intros Hnone Hv. apply Hgen. intros j mj Hj Hmj.
    by apply (validate_email_accepts_fresh db None (email m) Hv j mj).
  - intros Hv. apply Hgen. intros j mj Hj Hmj.
    apply (validate_email_accepts_fresh db (Some i) (email m) Hv j mj);
      [congruence|done].
Qed.

(** ** The Book representation *)

(** X18: the representation of a book determines the book and its id: two
    books with the same representation have the same id, title, author,
    year, status and borrower. *)
Theorem BookSerializer_data_inj pk b pk' b' :
  BookSerializer_data pk b = BookSerializer_data pk' b' →
  pk = pk' ∧ b = b'.
Proof.
  unfold BookSerializer_data. destruct b as [t a y s o], b' as [t' a' y' s' o'].
  simpl. intros [= -> -> -> -> -> Ho]. split; [done|]. f_equal.
  by destruct o, o'; simpl in Ho; try injection Ho as ->.
Qed.

(** ** Concurrent borrows, for every schedule *)

Section FurtherSchedules.
Variable repr : value → string.

Lemma borrow_step_db request pk pc db :
  (borrow_step repr request pk pc db).2 = db
  ∨ ∃ b, book_inv b ∧ (borrow_step repr request pk pc db).2 = Book_save pk b db.
Proof.
  destruct pc as [|book|book member|r]; simpl.
  - unfold bind, check_permissions.
    destruct (user request); simpl; [|by left].
    rewrite get_object_eq. by destruct (visible_book db request pk); left.
  - destruct (negb (truthy_int (member_id (request_data request))));
      [by left|].
    unfold Member_get, read.
    destruct (member_id (request_data request)) as [mid|]; simpl; [|by left].
    by destruct (members db !! mid); left.
  - destruct (negb (String.eqb (status book) "available")); [by left|].
    right. eexists. split; [|done]. apply book_inv_borrowed_by.
  - by left.
Qed.

Lemma borrow_step_steps_left request pk pc db :
  (steps_left (borrow_step repr request pk pc db).1
   ≤ pred (steps_left pc))%nat.
Proof.
  destruct pc as [|book|book member|r]; simpl.
  - by destruct (bind _ _ db) as [[?|?] ?]; simpl; lia.
  - destruct (negb (truthy_int (member_id (request_data request))));
      simpl; [lia|].
    unfold Member_get, read.
    destruct (member_id (request_data request)) as [mid|]; simpl; [|lia].
    destruct (members db !! mid); simpl; lia.
  - by destruct (negb (String.eqb (status book) "available")).
  - done.
Qed.

Lemma step_invariant_refl pk1 pk2 db : step_invariant pk1 pk2 db db.
Proof. unfold step_invariant. by split; [|split; [|split]]. Qed.

Lemma step_invariant_save pk1 pk2 pk b db db' :
  pk = pk1 ∨ pk = pk2 → book_inv b →
  step_invariant pk1 pk2 db db' →
  step_invariant pk1 pk2 db (Book_save pk b db').
Proof.
  intros Hpk Hb (Hm & Ht & Hbooks & Hinv).
  split; [done|]. split; [done|]. split.
  - intros i H1 H2. simpl. rewrite lookup_insert_ne by (by destruct Hpk; subst).
    by apply Hbooks.
  - intros Hdb. apply save_all_inv; [done|by apply Hinv].
Qed.

Lemma system_step_invariant r1 r2 pk1 pk2 s turn db :
  step_invariant pk1 pk2 db (shared s) →
  step_invariant pk1 pk2 db (shared (system_step repr r1 r2 pk1 pk2 s turn)).
Proof.
  intros Hs. destruct turn.
  - rewrite system_step_first. simpl.
    destruct (borrow_step_db r1 pk1 (first s) (shared s))
      as [->|(b & Hb & ->)]; [done|].
    apply step_invariant_save; auto.
  - rewrite system_step_second. simpl.
    destruct (borrow_step_db r2 pk2 (second s) (shared s))
      as [->|(b & Hb & ->)]; [done|].
    apply step_invariant_save; auto.
Qed.

(** X19: whatever the interleaving of two borrow requests, the members and
    the tokens are untouched, no book other than the two addressed ones
    changes, and if every book satisfied status == 'borrowed' iff
    borrower is not null before, every book does afterwards. *)
Theorem schedule_invariants r1 r2 pk1 pk2 schedule db :
  let s := run_schedule repr r1 r2 pk1 pk2 schedule db in
  members (shared s) = members db ∧ tokens (shared s) = tokens db
  ∧ (∀ i, i ≠ pk1 → i ≠ pk2 → books (shared s) !! i = books db !! i)
  ∧ (all_books_inv db → all_books_inv (shared s)).
Proof.
  simpl. change (step_invariant pk1 pk2 db
                   (shared (run_schedule repr r1 r2 pk1 pk2 schedule db))).
  unfold run_schedule.
  induction schedule as [|turn schedule IH] using rev_ind.
  - apply step_invariant_refl.
  - rewrite fold_left_app. simpl. by apply system_step_invariant.
Qed.

Lemma schedule_steps_left r1 r2 pk1 pk2 schedule s :
  let s' := fold_left (system_step repr r1 r2 pk1 pk2) schedule s in
  (steps_left (first s') ≤ steps_left (first s) - turns true schedule)%nat
  ∧ (steps_left (second s') ≤ steps_left (second s) - turns false schedule)%nat.
Proof.
  simpl. revert s. induction schedule as [|turn schedule IH]; intros s.
  - simpl. unfold turns. simpl. lia.
  - cbn [fold_left]. destruct (IH (system_step repr r1 r2 pk1 pk2 s turn))
      as [IH1 IH2].
    unfold turns in *. rewrite !filter_cons.
    destruct turn.
    + assert (Hf : (steps_left (first (system_step repr r1 r2 pk1 pk2 s true))
                    ≤ pred (steps_left (first s)))%nat)
        by (rewrite system_step_first; apply borrow_step_steps_left).
      assert (Hs : second (system_step repr r1 r2 pk1 pk2 s true) = second s)
        by by rewrite system_step_first.
      rewrite Hs in IH2.
      rewrite decide_True by done. rewrite decide_False by done.
      cbn [length]. lia.
    + assert (Hf : (steps_left (second (system_step repr r1 r2 pk1 pk2 s false))
                    ≤ pred (steps_left (second s)))%nat)
        by (rewrite system_step_second; apply borrow_step_steps_left).
      assert (Hs : first (system_step repr r1 r2 pk1 pk2 s false) = first s)
        by by rewrite system_step_second.
      rewrite Hs in IH1.
      rewrite decide_False by done. rewrite decide_True by done.
      cbn [length]. lia.
Qed.

(** X20: a borrow request has its response after three turns of its own,
    however the turns of the two requests are interleaved. *)
Theorem request_finishes_in_three_turns r1 r2 pk1 pk2 schedule db :
  let s := run_schedule repr r1 r2 pk1 pk2 schedule db in
  ((3 ≤ turns true schedule)%nat → ∃ r, first s = Finished r)
  ∧ ((3 ≤ turns false schedule)%nat → ∃ r, second s = Finished r).
Proof.
  simpl. unfold run_schedule.
  destruct (schedule_steps_left r1 r2 pk1 pk2 schedule
              {| shared := db; first := AtStart; second := AtStart |})
    as [H1 H2].
  simpl in H1, H2. split; intros Hn.
  - destruct (first _); simpl in H1; try lia. by eexists.
  - destruct (second _); simpl in H2; try lia. by eexists.
Qed.

Lemma three_steps request pk db :
  borrow_step repr request pk
    (borrow_step repr request pk
       (borrow_step repr request pk AtStart db).1
       (borrow_step repr request pk AtStart db).2).1
    (borrow_step repr request pk
       (borrow_step repr request pk AtStart db).1
       (borrow_step repr request pk AtStart db).2).2
  = (Finished (borrow_view repr request pk db).1,
     (borrow_view repr request pk db).2).
Proof.
  rewrite borrow_view_eq. simpl.
  unfold bind, check_permissions.
  destruct (user request); simpl; [|done].
  rewrite get_object_eq.
  destruct (visible_book db request pk) as [book|]; simpl; [|done].
  destruct (truthy_int (member_id (request_data request))); simpl; [|done].
  unfold Member_get, read.
  destruct (member_id (request_data request)) as [mid|]; simpl; [|done].
  destruct (members db !! mid); simpl; [|done].
  by destruct (String.eqb (status book) "available").
Qed.

(** X21: when the first request runs its three statements before the
    second starts, the outcome is that of calling the borrow action for
    the first request and then, on the resulting database, for the
    second. *)
Theorem serial_schedule_is_composition r1 r2 pk1 pk2 db :
  let s :=
    run_schedule repr r1 r2 pk1 pk2 [true; true; true; false; false; false] db in
  let o1 := borrow_view repr r1 pk1 db in
  let o2 := borrow_view repr r2 pk2 o1.2 in
  first s = Finished o1.1 ∧ second s = Finished o2.1 ∧ shared s = o2.2.
Proof.
  cbv zeta. unfold run_schedule. cbn [fold_left].
  rewrite !system_step_first, !system_step_second.
  cbn [first second shared].
  rewrite (three_steps r1 pk1 db). cbn [fst snd].
  by rewrite (three_steps r2 pk2 (borrow_view repr r1 pk1 db).2).
Qed.

End FurtherSchedules.

(** ** Concrete instances of the further properties *)

Lemma books_db0_cases pk b :
  books db0 !! pk = Some b →
  (pk = 1 ∧ b = available_book) ∨ (pk = 2 ∧ b = borrowed_book).
Proof.
  unfold db0. simpl. intros Hb.
  destruct (decide (pk = 1)) as [->|H1].
  { left. rewrite lookup_insert_eq in Hb. by injection Hb as <-. }
  rewrite lookup_insert_ne in Hb by done.
  apply lookup_singleton_Some in Hb as [<- <-]. by right.
Qed.

Lemma members_db0_cases i m :
  members db0 !! i = Some m → (i = 1 ∧ m = john) ∨ (i = 2 ∧ m = jane).
Proof.
  unfold db0. simpl. intros Hm.
  destruct (decide (i = 1)) as [->|H1].
  { left. rewrite lookup_insert_eq in Hm. by injection Hm as <-. }
  rewrite lookup_insert_ne in Hm by done.
  apply lookup_singleton_Some in Hm as [<- <-]. by right.
Qed.

Lemma refs_ok_db0 : refs_ok db0.
Proof.
  intros pk b mid Hb Hbo.
  apply books_db0_cases in Hb as [[-> ->]|[-> ->]]; [done|].
  injection Hbo as <-. by eexists.
Qed.

Lemma all_books_inv_db0 : all_books_inv db0.
Proof.
  intros pk b Hb.
  apply books_db0_cases in Hb as [[-> ->]|[-> ->]]; [apply book_inv_new|].
  by split.
Qed.

Lemma emails_unique_db0 : emails_unique db0.
Proof.
  intros i j m m' Hi Hj He.
  apply members_db0_cases in Hi as [[-> ->]|[-> ->]];
    apply members_db0_cases in Hj as [[-> ->]|[-> ->]]; done.
Qed.

Lemma validate_status_accepts_witness :
  validate_status "lost"
  = inl (ValidationError
           (VStr "Invalid status. Must be one of: available, borrowed")).
Proof. by apply (validate_status_accepts "lost"). Defined.

Lemma get_queryset_lookup_witness :
  ∃ qs, get_queryset (mk_request (Some 7) {[ "status" := "" ]} None) db0
        = (inr qs, db0)
        ∧ qs = books db0.
Proof.
  destruct (get_queryset_lookup
              (mk_request (Some 7) {[ "status" := "" ]} None) db0)
    as (qs & Hq & _ & Hall).
  exists qs. split; [exact Hq|]. by apply Hall.
Defined.

Lemma actions_frame_witness :
  (borrow_view repr0 (mk_request (Some 7) ∅ (Some 0)) 1 db0).2 = db0.
Proof.
  destruct (actions_frame repr0 (mk_request (Some 7) ∅ (Some 0)) 1 db0)
    as [(_ & _ & _ & Hfail) _].
  by apply Hfail.
Defined.

Lemma borrow_then_return_restores_witness :
  return_book_view repr0 (mk_request (Some 7) ∅ None) 1
    (borrow_view repr0 (mk_request (Some 7) ∅ (Some 2)) 1 db0).2
  = (Some (mkResponse (BookSerializer_data 1 available_book) 200), db0).
Proof.
  by apply (borrow_then_return_restores repr0
              (mk_request (Some 7) ∅ (Some 2)) (mk_request (Some 7) ∅ None)
              1 db0 available_book).
Defined.

Lemma second_return_fails_witness :
  return_book_view repr0 (mk_request (Some 7) ∅ None) 2
    (return_book_view repr0 (mk_request (Some 7) ∅ None) 2 db0).2
  = (Some (error_response 400 ["This book is not currently borrowed."]),
     (return_book_view repr0 (mk_request (Some 7) ∅ None) 2 db0).2).
Proof. by apply second_return_fails. Defined.

Lemma referential_integrity_kept_witness :
  refs_ok (borrow_view repr0 (mk_request (Some 7) ∅ (Some 2)) 1 db0).2
  ∧ refs_ok (Member_delete 1 db0).
Proof.
  destruct (referential_integrity_kept repr0
              (mk_request (Some 7) ∅ (Some 2)) 1 1 db0 refs_ok_db0)
    as (Hb & _ & Hd).
  by split.
Defined.

Lemma member_delete_frame_witness :
  ∃ b', books (Member_delete 1 db0) !! 2 = Some b' ∧ borrower b' ≠ Some 1.
Proof.
  destruct (member_delete_frame 1 db0) as (_ & _ & _ & _ & Hbooks).
  exists {| title := "Borrowed Book"; author := "Test Author";
            published_year := 2022; status := "borrowed";
            borrower := None |}.
  split; [reflexivity|]. by apply (Hbooks 2).
Defined.

Lemma login_token_stable_witness :
  login_view repr0 authenticate0 "k2" (login_request (Some "second") (Some "pw"))
    (login_view repr0 authenticate0 "k1"
       (login_request (Some "second") (Some "pw")) db0).2
  = login_view repr0 authenticate0 "k1"
      (login_request (Some "second") (Some "pw")) db0.
Proof.
  by apply (login_token_stable repr0 authenticate0 "k1" "k2"
              (login_request (Some "second") (Some "pw")) db0).
Defined.

Lemma login_frame_witness :
  (login_view repr0 authenticate0 "k" (login_request None None) db0).2 = db0.
Proof.
  destruct (login_frame repr0 authenticate0 "k" (login_request None None) db0)
    as (_ & _ & _ & Hfail).
  by apply Hfail.
Defined.


Lemma render_error_response_witness :
  ∃ msgs,
    render id (data (error_response 400 ["m"]))
      (Some {| ctx_response := Some (error_response 400 ["m"]) |})
    = envelope 400 "BAD REQUEST" (VDict [("error", VList (VStr <$> msgs))]).
Proof.
  destruct (render_error_response repr0 id (ValidationError (VStr "m"))
              (error_response 400 ["m"]) VNone eq_refl)
    as [(msgs & Hr & _) _].
  exists msgs. exact Hr.
Defined.


Lemma validated_email_keeps_unique_witness :
  emails_unique
    (Member_save 3
       {| name := "New"; email := "new@example.com"; address := "a";
          phone := "p"; join_date := "2024-03-01" |} db0).
Proof.
  destruct (validated_email_keeps_unique db0 3
              {| name := "New"; email := "new@example.com"; address := "a";
                 phone := "p"; join_date := "2024-03-01" |}
              emails_unique_db0)
    as [Hcreate _].
  by apply Hcreate.
Defined.

Lemma BookSerializer_data_inj_witness :
  1 = 1 ∧ available_book = Book_new "Available Book" "Test Author" 2023.
Proof.
  by apply (BookSerializer_data_inj 1 available_book 1
              (Book_new "Available Book" "Test Author" 2023)).
Defined.

Lemma schedule_invariants_witness :
  all_books_inv
    (shared (run_schedule repr0 (mk_request (Some 7) ∅ (Some 1))
               (mk_request (Some 7) ∅ (Some 2)) 1 1
               [true; false; true; false; true; false] db0)).
Proof.
  destruct (schedule_invariants repr0 (mk_request (Some 7) ∅ (Some 1))
              (mk_request (Some 7) ∅ (Some 2)) 1 1
              [true; false; true; false; true; false] db0)
    as (_ & _ & _ & Hinv).
  exact (Hinv all_books_inv_db0).
Defined.

Lemma request_finishes_in_three_turns_witness :
  ∃ r, first (run_schedule repr0 (mk_request (Some 7) ∅ (Some 1))
                (mk_request (Some 7) ∅ (Some 2)) 1 2
                [false; true; true; false; true] db0)
       = Finished r.
Proof.
  destruct (request_finishes_in_three_turns repr0
              (mk_request (Some 7) ∅ (Some 1))
              (mk_request (Some 7) ∅ (Some 2)) 1 2
              [false; true; true; false; true] db0)
    as [Hfirst _].
  apply Hfirst. vm_compute. lia.
Defined.

(** ** A book whose borrower was deleted *)

(** X22: after the borrower of a borrowed book is deleted the book still
    counts as borrowed: a borrow (by an authenticated request without a
    status filter, for an existing member) is refused with 400
    'This book is already borrowed.', while a return succeeds and makes
    the book available again, with no borrower. *)
Theorem orphaned_book_must_be_returned (repr : value → string)
    request pk mid db b :
  books db !! pk = Some b → status b = "borrowed" → borrower b = Some mid →
  user request ≠ None → query_params request !! "status" = None →
  (∀ m, member_id (request_data request) = Some m → m ≠ 0 →
        is_Some (members (Member_delete mid db) !! m) →
        borrow_view repr request pk (Member_delete mid db)
        = (Some (error_response 400 ["This book is already borrowed."]),
           Member_delete mid db))
  ∧ ∃ b', return_book_view repr request pk (Member_delete mid db)
          = (Some (mkResponse (BookSerializer_data pk b') 200),
             Book_save pk b' (Member_delete mid db))
          ∧ status b' = "available" ∧ borrower b' = None
          ∧ title b' = title b ∧ author b' = author b
          ∧ published_year b' = published_year b.
Proof.
  intros Hb Hs Hbo Hu Hq.
  assert (Hv : visible_book (Member_delete mid db) request pk
               = Some (set_null mid b)).
  { rewrite visible_book_unfiltered by done. simpl.
    by rewrite lookup_fmap, Hb. }
  assert (Hs' : status (set_null mid b) = "borrowed").
  { unfold set_null. by destruct (decide _). }
  split.
  - intros m Hm Hz [row Hrow].
    rewrite borrow_view_eq, Hv, Hm. cbn [mbind option_bind].
    destruct (user request); [|done].
    destruct (Z.eqb_spec m 0); [done|]. cbn [truthy_int negb].
    destruct (Z.eqb_spec m 0); [done|]. cbn [negb].
    rewrite Hrow, Hs'. done.
  - exists (returned (set_null mid b)).
    rewrite return_book_view_eq, Hv, Hs'.
    destruct (user request); [|done].
    split; [done|]. unfold set_null. by destruct (decide _).
Qed.

Lemma orphaned_book_must_be_returned_witness :
  borrow_view repr0 (mk_request (Some 7) ∅ (Some 2)) 2 (Member_delete 1 db0)
  = (Some (error_response 400 ["This book is already borrowed."]),
     Member_delete 1 db0).
Proof.
  destruct (orphaned_book_must_be_returned repr0
              (mk_request (Some 7) ∅ (Some 2)) 2 1 db0 borrowed_book
              eq_refl eq_refl eq_refl ltac:(done) eq_refl)
    as [Hborrow _].
  apply (Hborrow 2); [done|done|]. by exists jane.
Defined.

